(** * res_mon: the WebSocket resource monitor of [main.go]

    A shallow embedding of [main.go]: the per-connection handler
    [wsHandler] with its closure [sendSnapshot], the helpers [sendClose]
    and [firstOrEmpty], the JSON shape of the [Resources] struct, and the
    start/stop sequence of [serve].

    External calls (gopsutil, gorilla/websocket, net/http, the clock) are
    answered by an explicit environment; every effect of the program on
    the outside is recorded, in program order, in a trace of [Event]s. *)

From Stdlib Require Import ZArith List String Ascii Bool Lia.
From Stdlib Require Import Permutation DecimalString DecimalN Sorted.
From Stdlib Require Import Floats.
Import ListNotations.
Local Open Scope Z_scope.

(** ** Go values *)

Definition uint64 := Z.
Definition int32 := Z.
Definition float64 := PrimFloat.float.
(** A [float32] is only ever copied by the program. *)
Definition float32 := SpecFloat.spec_float.

(** [a > b] on float64. *)
Definition float64_gt (a b : float64) : bool := PrimFloat.ltb b a.

(** [float64(n)] for an unsigned integer: rounding to nearest even. *)
Definition float64_of_uint64 (n : uint64) : float64 :=
  SF2Prim (SpecFloat.binary_normalize FloatOps.prec FloatOps.emax n 0 false).

(** Go errors.  The two sentinels the program can meet are kept apart
    from every other error, which is known by its description.
    [errors.Is] is only ever asked about a sentinel. *)
Inductive error : Type :=
| http_ErrServerClosed
| context_DeadlineExceeded
| errorString (s : string).

Definition Error (e : error) : string :=
  match e with
  | http_ErrServerClosed => "http: Server closed"
  | context_DeadlineExceeded => "context deadline exceeded"
  | errorString s => s
  end.

Definition errors_Is (err target : error) : bool :=
  match err, target with
  | http_ErrServerClosed, http_ErrServerClosed => true
  | context_DeadlineExceeded, context_DeadlineExceeded => true
  | errorString a, errorString b => String.eqb a b
  | _, _ => false
  end.

(** A Go slice: [None] is the nil slice ([var s []T]), [Some l] a
    non-nil slice holding [l]. *)
Definition slice (A : Type) := option (list A).

Definition elems {A} (s : slice A) : list A :=
  match s with None => [] | Some l => l end.

Definition append {A} (s : slice A) (x : A) : slice A :=
  Some (elems s ++ [x]).

(** [s[i]]: [None] is the run-time panic "index out of range". *)
Definition index {A} (s : list A) (i : nat) : option A := nth_error s i.

(** A Go call returning [(value, err)]: [err] is [None] for [nil]. *)
Definition result (A : Type) := (A * option error)%type.

(** ** What the program reads of gopsutil's types *)

Module mem.
Record VirtualMemoryStat := {
  Total : uint64;
  Available : uint64;
  Used : uint64;
  UsedPercent : float64;
  Free : uint64
}.
End mem.

Module load.
Record AvgStat := {
  Load1 : float64;
  Load5 : float64;
  Load15 : float64
}.
End load.

Module disk.
Record PartitionStat := {
  Device : string;
  Mountpoint : string;
  Fstype : string
}.
Record UsageStat := {
  Total : uint64;
  Used : uint64;
  Free : uint64;
  UsedPercent : float64
}.
End disk.

(** A process handle: what each of its methods returns when called. *)
Module process.
Record MemoryInfoStat := { RSS : uint64 }.
Record Process := {
  Pid : int32;
  Name : result string;
  CPUPercent : result float64;
  MemoryInfo : result MemoryInfoStat;
  Cmdline : result string;
  MemoryPercent : result float32;
  Status : result (list string);
  Username : result string
}.
End process.

(** ** The structs of [main.go] *)

Record Memory := {
  Memory_Total : uint64;
  Memory_Available : uint64;
  Memory_Used : uint64;
  Memory_UsedPercent : float64;
  Memory_Free : uint64
}.

Record LoadAverage := {
  Load1 : float64;
  Load5 : float64;
  Load15 : float64
}.

Record DiskPartition := {
  Device : string;
  Mountpoint : string;
  Fstype : string;
  Total : uint64;
  Used : uint64;
  Free : uint64;
  UsedPercent : float64
}.

Record ProcessInfo := {
  PID : int32;
  Name : string;
  CPUPercent : float64;
  MemoryMB : float64;
  MemoryPercent : float32;
  Status : string;
  Username : string;
  Cmdline : string
}.

Record Resources := {
  Hostname : string;
  Uptime : uint64;
  Memory_ : Memory;
  LoadAverage_ : LoadAverage;
  Partitions : slice DiskPartition;
  Processes : slice ProcessInfo
}.

(** ** JSON, as [encoding/json] lays the structs out

    Keys come from the [json:"..."] tags, in field order; a nil slice
    is encoded as [null], a non-nil one as an array. *)

#[local] Unset Elimination Schemes.
Inductive JSON : Type :=
| JNull
| JString (s : string)
| JUint (n : uint64)
| JInt (n : Z)
| JFloat64 (f : float64)
| JFloat32 (f : float32)
| JArray (l : list JSON)
| JObject (fields : list (string * JSON)).
#[local] Set Elimination Schemes.

Definition json_slice {A} (enc : A -> JSON) (s : slice A) : JSON :=
  match s with
  | None => JNull
  | Some l => JArray (map enc l)
  end.

Definition json_Memory (m : Memory) : JSON :=
  JObject [ ("total", JUint (Memory_Total m));
            ("available", JUint (Memory_Available m));
            ("used", JUint (Memory_Used m));
            ("usedPercent", JFloat64 (Memory_UsedPercent m));
            ("free", JUint (Memory_Free m)) ]%string.

Definition json_LoadAverage (a : LoadAverage) : JSON :=
  JObject [ ("load1", JFloat64 (Load1 a));
            ("load5", JFloat64 (Load5 a));
            ("load15", JFloat64 (Load15 a)) ]%string.

Definition json_DiskPartition (d : DiskPartition) : JSON :=
  JObject [ ("device", JString (Device d));
            ("mountpoint", JString (Mountpoint d));
            ("fstype", JString (Fstype d));
            ("total", JUint (Total d));
            ("used", JUint (Used d));
            ("free", JUint (Free d));
            ("usedPercent", JFloat64 (UsedPercent d)) ]%string.

Definition json_ProcessInfo (p : ProcessInfo) : JSON :=
  JObject [ ("pid", JInt (PID p));
            ("name", JString (Name p));
            ("cpuPercent", JFloat64 (CPUPercent p));
            ("memoryMB", JFloat64 (MemoryMB p));
            ("memoryPercent", JFloat32 (MemoryPercent p));
            ("status", JString (Status p));
            ("username", JString (Username p));
            ("cmdline", JString (Cmdline p)) ]%string.

Definition json_Resources (rs : Resources) : JSON :=
  JObject [ ("hostname", JString (Hostname rs));
            ("uptime", JUint (Uptime rs));
            ("memory", json_Memory (Memory_ rs));
            ("load_average", json_LoadAverage (LoadAverage_ rs));
            ("partitions", json_slice json_DiskPartition (Partitions rs));
            ("processes", json_slice json_ProcessInfo (Processes rs)) ]%string.


(** The value under a key of a JSON object. *)
Fixpoint lookup (k : string) (fields : list (string * JSON)) : option JSON :=
  match fields with
  | [] => None
  | (k', v) :: rest => if String.eqb k k' then Some v else lookup k rest
  end.

Definition member (k : string) (j : JSON) : option JSON :=
  match j with
  | JObject fields => lookup k fields
  | _ => None
  end.

(** ** [firstOrEmpty] *)

Definition firstOrEmpty (s : list string) : option string :=
  if (0 <? Z.of_nat (List.length s)) then index s 0 else Some EmptyString.

(** ** Effects

    Every call the program makes to the outside, in program order.
    [Wg_Add] and [Wg_Done] are the two calls that move the counter of a
    [sync.WaitGroup]; the counter of [app.wg] is read off the trace. *)

Inductive Call : Type :=
| host_Uptime
| mem_VirtualMemory
| load_Avg
| disk_Partitions
| disk_Usage (path : string)
| process_Processes
| p_Name (pid : int32)
| p_CPUPercent (pid : int32)
| p_MemoryInfo (pid : int32)
| p_Cmdline (pid : int32)
| p_MemoryPercent (pid : int32)
| p_Status (pid : int32)
| p_Username (pid : int32).

(** The payload [websocket.FormatCloseMessage] packs: the close code
    (two bytes, big endian) followed by the text. *)
Record CloseData := { closeCode : Z; closeText : string }.

Definition websocket_CloseMessage : Z := 8.
Definition websocket_CloseNormalClosure : Z := 1000.
Definition websocket_CloseInternalServerErr : Z := 1011.
Definition http_StatusInternalServerError : Z := 500.
Definition time_Second : Z := 1000000000.

Definition websocket_FormatCloseMessage (code : Z) (text : string) : CloseData :=
  {| closeCode := code; closeText := text |}.

Inductive Event : Type :=
| Provider (c : Call)                         (* a gopsutil call *)
| os_Hostname_                                (* os.Hostname() *)
| Upgrader_Upgrade                            (* upgrader.Upgrade(w, r, nil) *)
| Http_Error (msg : string) (code : Z)        (* http.Error(w, msg, code) *)
| Conn_WriteJSON (rs : Resources)             (* conn.WriteJSON(rs) *)
| Conn_WriteMessage (messageType : Z) (data : CloseData)
| Conn_Close                                  (* the deferred conn.Close() *)
| Ctx_Done                                    (* <-r.Context().Done() fired *)
| Time_After (d : Z)                          (* <-time.After(d) fired *)
| Log (msg : string)                          (* log.Println / log.Printf *)
| Signal_Notify                               (* signal.Notify(quit, SIGINT, SIGTERM) *)
| Srv_Shutdown (timeout elapsed : Z)          (* srv.Shutdown(ctx): ctx expires after timeout, the call takes elapsed *)
| Chan_Send (v : option error)                (* shutdownError <- v *)
| Wg_Add (delta : Z)                          (* app.wg.Add(delta) *)
| Wg_Done                                     (* app.wg.Done() *)
| Wg_Wait.                                    (* app.wg.Wait() *)

(** How a piece of code ends: it falls through with a value, it
    executes [return err] with a non-nil error, or it panics. *)
Inductive Res (A : Type) : Type :=
| Val (a : A)
| Return_err (e : error)
| Panic.
Arguments Val {A} a.
Arguments Return_err {A} e.
Arguments Panic {A}.

(** Code with effects: the trace it leaves and how it ends. *)
Definition M (A : Type) : Type := (list Event * Res A)%type.

Definition ret {A} (a : A) : M A := ([], Val a).

Definition bind {A B} (m : M A) (f : A -> M B) : M B :=
  match m with
  | (t, Val a) => let (t', r) := f a in (t ++ t', r)
  | (t, Return_err e) => (t, Return_err e)
  | (t, Panic) => (t, Panic)
  end.

Declare Scope go_scope.
Delimit Scope go_scope with go.
Notation "x <- m ;; k" := (bind m (fun x => k))
  (at level 61, m at next level, right associativity) : go_scope.
Notation "' p <- m ;; k" := (bind m (fun x => let p := x in k))
  (at level 61, p pattern, m at next level, right associativity) : go_scope.
Local Open Scope go_scope.

(** [v, err := f()] with no test on [err] yet. *)
Definition call {A} (c : Call) (r : result A) : M (result A) :=
  ([Provider c], Val r).

(** [v, err := f(); if err != nil { return err }]. *)
Definition call_check {A} (c : Call) (r : result A) : M A :=
  ([Provider c], match snd r with Some e => Return_err e | None => Val (fst r) end).

(** A value produced by an index expression that may panic. *)
Definition checked {A} (o : option A) : M A :=
  ([], match o with Some a => Val a | None => Panic end).

(** [for _, x := range l { s = body(s, x) }]. *)
Fixpoint range {A S} (body : S -> A -> M S) (l : list A) (s : S) : M S :=
  match l with
  | [] => ret s
  | x :: l' => s' <- body s x ;; range body l' s'
  end.

(** ** [sort.Slice]

    On slices of at most 12 elements [sort.Slice] is Go's
    [insertionSort_func]: element [i] is swapped leftwards while it is
    [less] than its left neighbour.  [sift] holds the part already in
    place with its last element first.  Longer slices go through
    pattern-defeating quicksort, which orders the keys alike whenever
    [less] is a strict weak order and may order entries with equal keys
    differently. *)
Section Sort.
Context {A : Type} (less : A -> A -> bool).

Fixpoint sift (x : A) (left : list A) : list A :=
  match left with
  | [] => [x]
  | y :: left' => if less x y then y :: sift x left' else x :: left
  end.

Definition insertionSort (data : list A) : list A :=
  rev (fold_left (fun left x => sift x left) data []).

Definition sort_Slice (x : slice A) : slice A :=
  option_map insertionSort x.
End Sort.

(** ** The host, as one call of [sendSnapshot] finds it *)

Record Host := {
  Uptime_at : result uint64;                            (* host.Uptime() *)
  VirtualMemory_at : result mem.VirtualMemoryStat;      (* mem.VirtualMemory() *)
  Avg_at : result load.AvgStat;                         (* load.Avg() *)
  Partitions_at : result (list disk.PartitionStat);     (* disk.Partitions(false) *)
  Usage_at : string -> result disk.UsageStat;           (* disk.Usage(path) *)
  Processes_at : result (list process.Process);         (* process.Processes() *)
  WriteJSON_at : Resources -> option error              (* what conn.WriteJSON returns *)
}.

(** ** [sendSnapshot], the closure of [wsHandler] *)

(** Body of [for _, partition := range partitions]. *)
Definition partition_body (h : Host) (diskPartitions : slice DiskPartition)
    (partition : disk.PartitionStat) : M (slice DiskPartition) :=
  '(usage, err) <- call (disk_Usage (disk.Mountpoint partition))
                        (Usage_at h (disk.Mountpoint partition)) ;;
  match err with
  | Some _ => ret diskPartitions                       (* continue *)
  | None =>
      ret (append diskPartitions
             {| Device := disk.Device partition;
                Mountpoint := disk.Mountpoint partition;
                Fstype := disk.Fstype partition;
                Total := disk.Total usage;
                Used := disk.Used usage;
                Free := disk.Free usage;
                UsedPercent := disk.UsedPercent usage |})
  end.

(** Body of [for _, p := range processes]. *)
Definition process_body (processInfos : slice ProcessInfo)
    (p : process.Process) : M (slice ProcessInfo) :=
  let pid := process.Pid p in
  '(name, err) <- call (p_Name pid) (process.Name p) ;;
  match err with
  | Some _ => ret processInfos                         (* continue *)
  | None =>
      '(cpuPercent, _) <- call (p_CPUPercent pid) (process.CPUPercent p) ;;
      '(memInfo, err) <- call (p_MemoryInfo pid) (process.MemoryInfo p) ;;
      match err with
      | Some _ => ret processInfos                     (* continue *)
      | None =>
          '(cmdLine, _) <- call (p_Cmdline pid) (process.Cmdline p) ;;
          '(memPercent, _) <- call (p_MemoryPercent pid) (process.MemoryPercent p) ;;
          '(status, _) <- call (p_Status pid) (process.Status p) ;;
          '(username, _) <- call (p_Username pid) (process.Username p) ;;
          status0 <- checked (firstOrEmpty status) ;;
          ret (append processInfos
                 {| PID := pid;
                    Name := name;
                    CPUPercent := cpuPercent;
                    MemoryMB := (float64_of_uint64 (process.RSS memInfo) / 1024 / 1024)%float;
                    MemoryPercent := memPercent;
                    Status := status0;
                    Username := username;
                    Cmdline := cmdLine |})
      end
  end.

(** The [less] closure handed to [sort.Slice]. *)
Definition less_cpu (a b : ProcessInfo) : bool :=
  float64_gt (CPUPercent a) (CPUPercent b).

Definition sendSnapshot (hostname : string) (h : Host) : M unit :=
  uptime <- call_check host_Uptime (Uptime_at h) ;;
  v <- call_check mem_VirtualMemory (VirtualMemory_at h) ;;
  avg <- call_check load_Avg (Avg_at h) ;;
  partitions <- call_check disk_Partitions (Partitions_at h) ;;
  diskPartitions <- range (partition_body h) partitions None ;;
  processes <- call_check process_Processes (Processes_at h) ;;
  processInfos <- range process_body processes None ;;
  let processInfos := sort_Slice less_cpu processInfos in
  let rs := {| Hostname := hostname;
               Uptime := uptime;
               Memory_ := {| Memory_Total := mem.Total v;
                             Memory_Free := mem.Free v;
                             Memory_Used := mem.Used v;
                             Memory_UsedPercent := mem.UsedPercent v;
                             Memory_Available := mem.Available v |};
               LoadAverage_ := {| Load1 := load.Load1 avg;
                                  Load5 := load.Load5 avg;
                                  Load15 := load.Load15 avg |};
               Partitions := diskPartitions;
               Processes := processInfos |} in
  ([Conn_WriteJSON rs],
   match WriteJSON_at h rs with Some e => Return_err e | None => Val tt end).

(** ** [sendClose] and [wsHandler] *)

Definition sendClose (err : error) : list Event :=
  [Conn_WriteMessage websocket_CloseMessage
     (websocket_FormatCloseMessage websocket_CloseInternalServerErr (Error err))].

(** Which case of the [select] fires. *)
Inductive Wake : Type :=
| Cancelled                    (* case <-r.Context().Done() *)
| Elapsed (h : Host).          (* case <-time.After(1 * time.Second); [h] is the
                                  host as the following sendSnapshot finds it *)

(** Where a goroutine is once its environment has nothing more to
    offer: it has returned, it is blocked waiting, or it has panicked. *)
Inductive Progress : Type := Returned | Blocked | Panicked.

(** The [for { select { ... } }] loop. *)
Fixpoint loop (hostname : string) (wakes : list Wake) : list Event * Progress :=
  match wakes with
  | [] => ([], Blocked)
  | Cancelled :: _ => ([Ctx_Done; Log "client disconnected"], Returned)
  | Elapsed h :: wakes' =>
      match sendSnapshot hostname h with
      | (t, Val _) =>
          let (t', st) := loop hostname wakes' in
          (Time_After (1 * time_Second) :: t ++ t', st)
      | (t, Return_err err) =>
          (Time_After (1 * time_Second) :: t ++ sendClose err, Returned)
      | (t, Panic) => (Time_After (1 * time_Second) :: t, Panicked)
      end
  end.

(** One connection: the outcome of the handshake, of [os.Hostname],
    the host at the first snapshot, and the wake-ups of the loop. *)
Record Request := {
  Upgrade_at : option error;
  Hostname_at : result string;
  first : Host;
  wakes : list Wake
}.

(** The handler from [os.Hostname()] on, [defer conn.Close()] pending. *)
Definition session (req : Request) : list Event * Progress :=
  match Hostname_at req with
  | (_, Some err) => (os_Hostname_ :: sendClose err, Returned)
  | (hostname, None) =>
      match sendSnapshot hostname (first req) with
      | (t, Val _) =>
          let (t', st) := loop hostname (wakes req) in
          (os_Hostname_ :: t ++ t', st)
      | (t, Return_err err) => (os_Hostname_ :: t ++ sendClose err, Returned)
      | (t, Panic) => (os_Hostname_ :: t, Panicked)
      end
  end.

(** [defer conn.Close()] runs when the handler returns or panics. *)
Definition deferred (st : Progress) : list Event :=
  match st with
  | Blocked => []
  | Returned | Panicked => [Conn_Close]
  end.

Definition wsHandler (req : Request) : list Event * Progress :=
  match Upgrade_at req with
  | Some err =>
      ([Upgrader_Upgrade; Http_Error (Error err) http_StatusInternalServerError],
       Returned)
  | None =>
      let (t, st) := session req in
      (Upgrader_Upgrade :: t ++ deferred st, st)
  end.

(** ** [serve] *)

(** [wg] is the counter of the [sync.WaitGroup]. *)
Record application := { port : Z; wg : Z }.

(** [fmt.Sprintf(":%d", app.port)]. *)
Definition Addr (app : application) : string :=
  (":" ++ NilEmpty.string_of_int (Z.to_int (port app)))%string.

(** The counter of [app.wg] after a trace. *)
Definition wg_step (c : Z) (e : Event) : Z :=
  match e with
  | Wg_Add delta => c + delta
  | Wg_Done => c - 1
  | _ => c
  end.

Definition wg_counter (app : application) (t : list Event) : Z :=
  fold_left wg_step t (wg app).

(** The process as [serve] finds it. *)
Record World := {
  ListenAndServe_at : error;     (* what srv.ListenAndServe() returns *)
  quit_at : option string;       (* the signal read from quit; None: none ever comes *)
  idle_at : option Z;            (* when, counted from the call of srv.Shutdown, every
                                    connection the server tracks is idle; None: never *)
  sessions : list Request        (* the connections served by wsHandler so far *)
}.

(** [srv.Shutdown(ctx)] after the documentation of net/http: it returns
    nil once the connections the server tracks are idle, or the
    context's error once the deadline passes; hijacked connections (the
    WebSocket sessions) are not tracked.  The result is the time the
    call takes and the error. *)
Definition srv_Shutdown (timeout : Z) (idle : option Z) : Z * option error :=
  match idle with
  | Some t =>
      if t <=? timeout then (t, None)
      else (timeout, Some context_DeadlineExceeded)
  | None => (timeout, Some context_DeadlineExceeded)
  end.

(** Everything the handlers of the world's connections have done. *)
Definition handlers_trace (w : World) : list Event :=
  List.concat (map (fun req => fst (wsHandler req)) (sessions w)).

(** The background goroutine of [serve].  [receiving] tells whether
    [serve] is at [err = <-shutdownError]; the channel is unbuffered, so
    a [Chan_Send] the other side never takes leaves the goroutine
    blocked in it, and [serve] takes at most one value. *)
Definition shutdown_goroutine (app : application) (w : World) (receiving : bool)
    : list Event * Progress :=
  match quit_at w with
  | None => ([Signal_Notify], Blocked)                 (* s := <-quit *)
  | Some s =>
      let (elapsed, err) := srv_Shutdown (20 * time_Second) (idle_at w) in
      let t1 := [Signal_Notify;
                 Log ("shutting down server: " ++ s);
                 Srv_Shutdown (20 * time_Second) elapsed] in
      let t2 := [Log ("completing background tasks: " ++ Addr app); Wg_Wait] in
      let waited := wg_counter app (handlers_trace w) =? 0 in
      match err with
      | Some e =>
          if receiving then
            if waited then (t1 ++ [Chan_Send (Some e)] ++ t2 ++ [Chan_Send None], Blocked)
            else (t1 ++ [Chan_Send (Some e)] ++ t2, Blocked)
          else (t1 ++ [Chan_Send (Some e)], Blocked)
      | None =>
          if waited then
            (t1 ++ t2 ++ [Chan_Send None], if receiving then Returned else Blocked)
          else (t1 ++ t2, Blocked)
      end
  end.

(** The first value put on [shutdownError] in a trace. *)
Fixpoint first_sent (t : list Event) : option (option error) :=
  match t with
  | [] => None
  | Chan_Send v :: _ => Some v
  | _ :: t' => first_sent t'
  end.

(** What [serve] does in the end: it returns an error value ([None] is
    nil), or it never returns. *)
Inductive Served : Type :=
| Serve_returns (err : option error)
| Serve_blocked.

Definition serve (app : application) (w : World) : list Event * Served :=
  let starting := Log ("starting server: " ++ Addr app) in
  let err := ListenAndServe_at w in
  if errors_Is err http_ErrServerClosed then
    ([starting], Serve_returns (Some err))
  else
    match first_sent (fst (shutdown_goroutine app w true)) with
    | None => ([starting], Serve_blocked)              (* err = <-shutdownError *)
    | Some (Some err) => ([starting], Serve_returns (Some err))
    | Some None =>
        ([starting; Log ("stopped server: " ++ Addr app)], Serve_returns None)
    end.

(** [main]: the exit status of the process, when it exits. *)
Definition main (w : World) : option Z :=
  let app := {| port := 8080; wg := 0 |} in
  match snd (serve app w) with
  | Serve_returns (Some _) => Some 1                   (* log.Fatal(err) *)
  | Serve_returns None => Some 0
  | Serve_blocked => None
  end.

(** ** Reading traces *)

(** The snapshots handed to [conn.WriteJSON], in order. *)
Fixpoint sent_snapshots (t : list Event) : list Resources :=
  match t with
  | [] => []
  | Conn_WriteJSON rs :: t' => rs :: sent_snapshots t'
  | _ :: t' => sent_snapshots t'
  end.

(** The close frames handed to [conn.WriteMessage], in order. *)
Fixpoint close_frames (t : list Event) : list CloseData :=
  match t with
  | [] => []
  | Conn_WriteMessage messageType data :: t' =>
      if messageType =? websocket_CloseMessage then data :: close_frames t'
      else close_frames t'
  | _ :: t' => close_frames t'
  end.

(** How often [sendSnapshot] was entered: it opens with [host.Uptime()]
    and calls it nowhere else. *)
Fixpoint attempts (t : list Event) : nat :=
  match t with
  | [] => O
  | Provider host_Uptime :: t' => S (attempts t')
  | _ :: t' => attempts t'
  end.

(** The paths [disk.Usage] was asked about, in order. *)
Fixpoint usage_lookups (t : list Event) : list string :=
  match t with
  | [] => []
  | Provider (disk_Usage path) :: t' => path :: usage_lookups t'
  | _ :: t' => usage_lookups t'
  end.

(** The sends and the timer waits of a trace, in order. *)
Inductive Beat : Type :=
| Send
| Wait (d : Z).

Fixpoint beats (t : list Event) : list Beat :=
  match t with
  | [] => []
  | Conn_WriteJSON _ :: t' => Send :: beats t'
  | Time_After d :: t' => Wait d :: beats t'
  | _ :: t' => beats t'
  end.


(** A trace made of gopsutil calls only. *)
Definition calls_only (t : list Event) : Prop :=
  Forall (fun e => exists c, e = Provider c) t.

(** Is the event a call on [app.wg] that moves its counter? *)
Definition moves_wg (e : Event) : bool :=
  match e with
  | Wg_Add _ | Wg_Done => true
  | _ => false
  end.

(** ** Orderings of the processes *)

Fixpoint adjacent {A} (R : A -> A -> bool) (l : list A) : bool :=
  match l with
  | [] => true
  | a :: l' =>
      match l' with
      | [] => true
      | b :: _ => R a b && adjacent R l'
      end
  end.


(** No entry's cpuPercent is greater than the previous one's. *)
Definition never_ascending (l : list ProcessInfo) : bool :=
  adjacent (fun a b => negb (float64_gt (CPUPercent b) (CPUPercent a))) l.

(** ** The snapshot in the words of the specification

    What [sendSnapshot] is to build, written with [filter] and [map],
    to be compared with what the loops of the code build. *)

Definition failed {A} (r : result A) : bool :=
  match snd r with Some _ => true | None => false end.

Definition first_or_empty (s : list string) : string :=
  match s with
  | [] => EmptyString
  | x :: _ => x
  end.

Definition usage_ok (h : Host) (partition : disk.PartitionStat) : bool :=
  negb (failed (Usage_at h (disk.Mountpoint partition))).

Definition diskPartition_of (h : Host) (partition : disk.PartitionStat) : DiskPartition :=
  let usage := fst (Usage_at h (disk.Mountpoint partition)) in
  {| Device := disk.Device partition;
     Mountpoint := disk.Mountpoint partition;
     Fstype := disk.Fstype partition;
     Total := disk.Total usage;
     Used := disk.Used usage;
     Free := disk.Free usage;
     UsedPercent := disk.UsedPercent usage |}.

Definition lookups_ok (p : process.Process) : bool :=
  negb (failed (process.Name p)) && negb (failed (process.MemoryInfo p)).

Definition processInfo_of (p : process.Process) : ProcessInfo :=
  {| PID := process.Pid p;
     Name := fst (process.Name p);
     CPUPercent := fst (process.CPUPercent p);
     MemoryMB :=
       (float64_of_uint64 (process.RSS (fst (process.MemoryInfo p))) / 1024 / 1024)%float;
     MemoryPercent := fst (process.MemoryPercent p);
     Status := first_or_empty (fst (process.Status p));
     Username := fst (process.Username p);
     Cmdline := fst (process.Cmdline p) |}.

(** A slice after appending the elements of [l] one by one. *)
Definition extend {A} (s : slice A) (l : list A) : slice A :=
  match l with
  | [] => s
  | _ :: _ => Some (elems s ++ l)
  end.

Definition kept_partitions (h : Host) : list DiskPartition :=
  map (diskPartition_of h) (filter (usage_ok h) (fst (Partitions_at h))).

Definition kept_processes (h : Host) : list ProcessInfo :=
  map processInfo_of (filter lookups_ok (fst (Processes_at h))).

Definition snapshot (hostname : string) (h : Host) : Resources :=
  let v := fst (VirtualMemory_at h) in
  let avg := fst (Avg_at h) in
  {| Hostname := hostname;
     Uptime := fst (Uptime_at h);
     Memory_ := {| Memory_Total := mem.Total v;
                   Memory_Available := mem.Available v;
                   Memory_Used := mem.Used v;
                   Memory_UsedPercent := mem.UsedPercent v;
                   Memory_Free := mem.Free v |};
     LoadAverage_ := {| Load1 := load.Load1 avg;
                        Load5 := load.Load5 avg;
                        Load15 := load.Load15 avg |};
     Partitions := extend None (kept_partitions h);
     Processes := sort_Slice less_cpu (extend None (kept_processes h)) |}.

(** How [conn.WriteJSON] answers that snapshot. *)
Definition write_result (hostname : string) (h : Host) : Res unit :=
  match WriteJSON_at h (snapshot hostname h) with
  | Some e => Return_err e
  | None => Val tt
  end.

(** The first of the five calls of [sendSnapshot] that fails, if any. *)
Definition provider_error (h : Host) : option error :=
  match snd (Uptime_at h) with
  | Some e => Some e
  | None =>
  match snd (VirtualMemory_at h) with
  | Some e => Some e
  | None =>
  match snd (Avg_at h) with
  | Some e => Some e
  | None =>
  match snd (Partitions_at h) with
  | Some e => Some e
  | None => snd (Processes_at h)
  end end end end.

(** The calls made on behalf of one process. *)
Definition process_calls (p : process.Process) : list Event :=
  let pid := process.Pid p in
  Provider (p_Name pid) ::
  if failed (process.Name p) then [] else
  Provider (p_CPUPercent pid) :: Provider (p_MemoryInfo pid) ::
  if failed (process.MemoryInfo p) then [] else
  [Provider (p_Cmdline pid); Provider (p_MemoryPercent pid);
   Provider (p_Status pid); Provider (p_Username pid)].

Definition usage_calls (partitions : list disk.PartitionStat) : list Event :=
  map (fun partition => Provider (disk_Usage (disk.Mountpoint partition))) partitions.

(** The gopsutil calls of one [sendSnapshot], up to the first of the
    five that fails. *)
Definition provider_trace (h : Host) : list Event :=
  Provider host_Uptime ::
  if failed (Uptime_at h) then [] else
  Provider mem_VirtualMemory ::
  if failed (VirtualMemory_at h) then [] else
  Provider load_Avg ::
  if failed (Avg_at h) then [] else
  Provider disk_Partitions ::
  if failed (Partitions_at h) then [] else
  usage_calls (fst (Partitions_at h)) ++
  Provider process_Processes ::
  if failed (Processes_at h) then [] else
  flat_map process_calls (fst (Processes_at h)).

(** The ticks of a session: the immediate first one, then the loop's. *)
Definition ticks (req : Request) : list Wake :=
  Elapsed (first req) :: wakes req.

(** A tick on which [sendSnapshot] returns nil. *)
Definition delivers (hostname : string) (h : Host) : bool :=
  match snd (sendSnapshot hostname h) with
  | Val _ => true
  | _ => false
  end.

(** The trace of ticks of the loop on which [sendSnapshot] returns nil. *)
Definition ticks_trace (hostname : string) (hs : list Host) : list Event :=
  flat_map (fun h => Time_After (1 * time_Second) :: fst (sendSnapshot hostname h)) hs.

(** Is a session of the world still running? *)
Definition running (req : Request) : bool :=
  match snd (wsHandler req) with
  | Blocked => true
  | _ => false
  end.

Definition session_active (w : World) : bool := existsb running (sessions w).

(** Is the outcome the goroutine puts on [shutdownError] first an error? *)
Definition forced (t : list Event) : bool :=
  match first_sent t with
  | Some (Some _) => true
  | _ => false
  end.

(** ** Further readings of a session *)

(** How often an event of a given kind occurs in a trace. *)
Definition occurrences (f : Event -> bool) (t : list Event) : nat :=
  List.length (filter f t).


Definition is_os_Hostname (e : Event) : bool :=
  match e with os_Hostname_ => true | _ => false end.

(** The same connection with other wake-ups. *)
Definition with_wakes (req : Request) (ws : list Wake) : Request :=
  {| Upgrade_at := Upgrade_at req;
     Hostname_at := Hostname_at req;
     first := first req;
     wakes := ws |}.

(** A wake-up after which the loop goes on. *)
Definition ticking (hostname : string) (w : Wake) : bool :=
  match w with
  | Cancelled => false
  | Elapsed h => delivers hostname h
  end.




(** ** The order of float64 values, by keys

    A float that is not a NaN is placed by its sign class, then its
    exponent, then its mantissa; this is the order [SFcompare] follows. *)

Definition float_key (x : SpecFloat.spec_float) : Z * Z * Z :=
  match x with
  | SpecFloat.S754_nan => (3, 0, 0)
  | SpecFloat.S754_infinity true => (-2, 0, 0)
  | SpecFloat.S754_infinity false => (2, 0, 0)
  | SpecFloat.S754_zero _ => (0, 0, 0)
  | SpecFloat.S754_finite true m e => (-1, - e, - Z.pos m)
  | SpecFloat.S754_finite false m e => (1, e, Z.pos m)
  end.

Definition key_le (a b : Z * Z * Z) : Prop :=
  let '(a1, a2, a3) := a in
  let '(b1, b2, b3) := b in
  a1 < b1 \/ (a1 = b1 /\ (a2 < b2 \/ (a2 = b2 /\ a3 <= b3))).

Definition cpu_key (p : ProcessInfo) : Z * Z * Z :=
  float_key (Prim2SF (CPUPercent p)).

(** No cpuPercent of the list is a NaN. *)
Definition cpu_numbers (l : list ProcessInfo) : Prop :=
  Forall (fun p => PrimFloat.is_nan (CPUPercent p) = false) l.

(** No entry's cpuPercent is greater than that of any entry before it. *)
Definition descending (l : list ProcessInfo) : Prop :=
  StronglySorted (fun a b => float64_gt (CPUPercent b) (CPUPercent a) = false) l.

(** ** The browser client (the page's script)

    A JavaScript string is its sequence of UTF-16 code units.  The
    uptime is a JSON number holding a non-negative integer; on integers
    below 2^53 the arithmetic of JavaScript numbers is exact, and the
    functions on numbers are modelled on [N]. *)

Definition js_string := list N.

(** A string literal of the script. *)
Definition js (s : string) : js_string := map N_of_ascii (list_ascii_of_string s).

(** [`${n}`] for a non-negative integer: its decimal digits. *)
Definition js_number (n : N) : js_string :=
  js (NilEmpty.string_of_uint (N.to_uint n)).

(** [parts.join(sep)]. *)
Fixpoint join (sep : js_string) (parts : list js_string) : js_string :=
  match parts with
  | [] => []
  | p :: parts' =>
      match parts' with
      | [] => p
      | _ :: _ => p ++ sep ++ join sep parts'
      end
  end.

(** The array [parts] of [formatUptime] when it is joined. *)
Definition uptime_parts (seconds : N) : list js_string :=
  let days := (seconds / 86400)%N in
  let hours := ((seconds mod 86400) / 3600)%N in
  let minutes := ((seconds mod 3600) / 60)%N in
  let secs := (seconds mod 60)%N in
  let parts := [] in
  let parts := if (0 <? days)%N then parts ++ [js_number days ++ js "d"] else parts in
  let parts := if (0 <? hours)%N then parts ++ [js_number hours ++ js "h"] else parts in
  let parts := if (0 <? minutes)%N then parts ++ [js_number minutes ++ js "m"] else parts in
  let parts :=
    if (0 <? secs)%N || (List.length parts =? 0)%nat
    then parts ++ [js_number secs ++ js "s"] else parts in
  parts.

Definition formatUptime (seconds : N) : js_string :=
  join (js " ") (uptime_parts seconds).

(** [s.substring(0, stop)]: a negative [stop] counts as 0, one beyond
    the length as the length. *)
Definition substring_from_0 (s : js_string) (stop : Z) : js_string :=
  firstn (Z.to_nat (Z.max 0 stop)) s.

Definition truncateCommand (cmd : js_string) (maxLength : Z) : js_string :=
  if Z.of_nat (List.length cmd) <=? maxLength then cmd
  else substring_from_0 cmd maxLength ++ js "...".











(** ** Sample hosts, connections and worlds *)

Local Open Scope string_scope.

Definition ok {A} (a : A) : result A := (a, None).
Definition fails {A} (a : A) (msg : string) : result A := (a, Some (errorString msg)).

Definition no_usage : disk.UsageStat :=
  {| disk.Total := 0; disk.Used := 0; disk.Free := 0; disk.UsedPercent := 0%float |}.

(** Scenario A: no partitions, no processes. *)
Definition host_A : Host :=
  {| Uptime_at := ok 100;
     VirtualMemory_at :=
       ok {| mem.Total := 1000; mem.Available := 600; mem.Used := 400;
             mem.UsedPercent := 40%float; mem.Free := 600 |};
     Avg_at := ok {| load.Load1 := 1%float; load.Load5 := 1%float; load.Load15 := 1%float |};
     Partitions_at := ok [];
     Usage_at := fun _ => fails no_usage "no such file or directory";
     Processes_at := ok [];
     WriteJSON_at := fun _ => None |}.

Definition proc (pid : int32) (name : result string) (cpu : float64)
    (memInfo : result process.MemoryInfoStat) (status : list string) : process.Process :=
  {| process.Pid := pid;
     process.Name := name;
     process.CPUPercent := ok cpu;
     process.MemoryInfo := memInfo;
     process.Cmdline := ok "/sbin/init";
     process.MemoryPercent := ok (SpecFloat.S754_zero false);
     process.Status := ok status;
     process.Username := ok "root" |}.

Definition rss (n : uint64) : result process.MemoryInfoStat :=
  ok {| process.RSS := n |}.

(** Scenario B: process A at 10% CPU, then process B at 90%. *)
Definition host_B : Host :=
  {| Uptime_at := Uptime_at host_A;
     VirtualMemory_at := VirtualMemory_at host_A;
     Avg_at := Avg_at host_A;
     Partitions_at := ok [];
     Usage_at := Usage_at host_A;
     Processes_at := ok [proc 1 (ok "A") 10%float (rss 1048576) ["S"];
                         proc 2 (ok "B") 90%float (rss 2097152) []];
     WriteJSON_at := fun _ => None |}.


(** A partition whose usage lookup fails next to one that answers, a
    process whose name is gone and one whose memory info is gone next
    to a healthy one. *)
Definition host_partial : Host :=
  {| Uptime_at := Uptime_at host_A;
     VirtualMemory_at := VirtualMemory_at host_A;
     Avg_at := Avg_at host_A;
     Partitions_at :=
       ok [ {| disk.Device := "/dev/sda1"; disk.Mountpoint := "/"; disk.Fstype := "ext4" |};
            {| disk.Device := "/dev/sr0"; disk.Mountpoint := "/media/cdrom";
               disk.Fstype := "iso9660" |} ];
     Usage_at := fun path =>
       if String.eqb path "/" then
         ok {| disk.Total := 1000; disk.Used := 250; disk.Free := 750;
               disk.UsedPercent := 25%float |}
       else fails no_usage "no medium found";
     Processes_at := ok [proc 7 (fails EmptyString "process does not exist") 5%float
                           (rss 4096) ["Z"];
                         proc 8 (ok "sshd") 3%float (rss 3145728) ["S"];
                         proc 9 (ok "cron") 4%float
                           (fails {| process.RSS := 0 |} "permission denied") ["S"]];
     WriteJSON_at := fun _ => None |}.

(** A host on which [load.Avg] fails. *)
Definition host_failing : Host :=
  {| Uptime_at := Uptime_at host_A;
     VirtualMemory_at := VirtualMemory_at host_A;
     Avg_at := fails {| load.Load1 := 0%float; load.Load5 := 0%float; load.Load15 := 0%float |}
                 "open /proc/loadavg: no such file or directory";
     Partitions_at := ok [];
     Usage_at := Usage_at host_A;
     Processes_at := ok [];
     WriteJSON_at := fun _ => None |}.

(** A connection that has received its first snapshot and waits. *)
Definition req_open : Request :=
  {| Upgrade_at := None; Hostname_at := ok "h1"; first := host_A; wakes := [] |}.

(** Scenario D: cancellation while the session is between ticks. *)
Definition req_cancelled : Request :=
  {| Upgrade_at := None; Hostname_at := ok "h1"; first := host_A;
     wakes := [Elapsed host_B; Cancelled] |}.

(** Scenario C: the Provider fails on the third tick. *)
Definition req_C : Request :=
  {| Upgrade_at := None; Hostname_at := ok "h1"; first := host_A;
     wakes := [Elapsed host_B; Elapsed host_failing; Elapsed host_A] |}.


Definition app0 : application := {| port := 8080; wg := 0 |}.

(** A stop request with every session gone and every connection idle. *)
Definition world_graceful : World :=
  {| ListenAndServe_at := http_ErrServerClosed;
     quit_at := Some "terminated";
     idle_at := Some 0;
     sessions := [req_cancelled] |}.

(** A stop request while one WebSocket session is still running. *)
Definition world_session_active : World :=
  {| ListenAndServe_at := http_ErrServerClosed;
     quit_at := Some "interrupt";
     idle_at := Some 0;
     sessions := [req_open] |}.

(** A stop request while a tracked connection never becomes idle. *)
Definition world_busy : World :=
  {| ListenAndServe_at := http_ErrServerClosed;
     quit_at := Some "interrupt";
     idle_at := None;
     sessions := [] |}.

(** The port is taken: [ListenAndServe] fails at once; a signal comes
    later. *)
Definition world_bind_failure : World :=
  {| ListenAndServe_at := errorString "listen tcp :8080: bind: address already in use";
     quit_at := Some "interrupt";
     idle_at := Some 0;
     sessions := [] |}.



(** The handshake fails. *)
Definition req_refused : Request :=
  {| Upgrade_at := Some (errorString "websocket: the client is not using the websocket protocol");
     Hostname_at := ok "h1"; first := host_A; wakes := [Elapsed host_A] |}.

(** [os.Hostname] fails. *)
Definition req_nameless : Request :=
  {| Upgrade_at := None; Hostname_at := fails EmptyString "hostname: not set";
     first := host_A; wakes := [Elapsed host_A] |}.

(** Three processes, the second with a NaN for its cpuPercent. *)
Definition host_nan : Host :=
  {| Uptime_at := Uptime_at host_A;
     VirtualMemory_at := VirtualMemory_at host_A;
     Avg_at := Avg_at host_A;
     Partitions_at := ok [];
     Usage_at := Usage_at host_A;
     Processes_at := ok [proc 1 (ok "a") 1%float (rss 0) ["S"];
                         proc 2 (ok "b") PrimFloat.nan (rss 0) ["S"];
                         proc 3 (ok "c") 2%float (rss 0) ["S"]];
     WriteJSON_at := fun _ => None |}.

Local Close Scope string_scope.

(** ** Proofs *)

(** *** The monad and the slices *)

Lemma bind_val {A B} (t : list Event) (a : A) (f : A -> M B) :
  bind (t, Val a) f = (t ++ fst (f a), snd (f a)).
Proof. unfold bind. destruct (f a). reflexivity. Qed.

Lemma extend_append {A} (s : slice A) (x : A) (l : list A) :
  extend (append s x) l = extend s (x :: l).
Proof.
  unfold append. destruct l as [|y l]; simpl.
  - reflexivity.
  - rewrite <- app_assoc. reflexivity.
Qed.

Lemma elems_extend {A} (s : slice A) (l : list A) :
  elems (extend s l) = elems s ++ l.
Proof.
  destruct l; simpl.
  - now rewrite app_nil_r.
  - reflexivity.
Qed.

Lemma firstOrEmpty_eq (s : list string) :
  firstOrEmpty s = Some (first_or_empty s).
Proof. destruct s; reflexivity. Qed.

(** *** The two loops of [sendSnapshot] *)

Lemma partition_body_eq (h : Host) (s : slice DiskPartition)
    (p : disk.PartitionStat) :
  partition_body h s p =
  ([Provider (disk_Usage (disk.Mountpoint p))],
   Val (if usage_ok h p then append s (diskPartition_of h p) else s)).
Proof.
  unfold partition_body, usage_ok, diskPartition_of, failed, call.
  destruct (Usage_at h (disk.Mountpoint p)) as [usage [e|]]; reflexivity.
Qed.

Lemma range_partition_body (h : Host) (l : list disk.PartitionStat)
    (s : slice DiskPartition) :
  range (partition_body h) l s =
  (usage_calls l, Val (extend s (map (diskPartition_of h) (filter (usage_ok h) l)))).
Proof.
  revert s. induction l as [|p l IH]; intro s.
  - reflexivity.
  - cbn [range]. rewrite partition_body_eq, bind_val, IH.
    cbn [fst snd app filter usage_calls map].
    destruct (usage_ok h p).
    + now rewrite extend_append.
    + reflexivity.
Qed.

Lemma process_body_eq (s : slice ProcessInfo) (p : process.Process) :
  process_body s p =
  (process_calls p,
   Val (if lookups_ok p then append s (processInfo_of p) else s)).
Proof.
  unfold process_body, process_calls, lookups_ok, processInfo_of, failed, call, checked.
  destruct (process.Name p) as [name [e|]]; [reflexivity|].
  destruct (process.CPUPercent p) as [cpu e1].
  destruct (process.MemoryInfo p) as [memInfo [e|]]; [reflexivity|].
  destruct (process.Cmdline p) as [cmdLine e2].
  destruct (process.MemoryPercent p) as [memPercent e3].
  destruct (process.Status p) as [status e4].
  destruct (process.Username p) as [username e5].
  cbn [bind fst snd app]. rewrite firstOrEmpty_eq. reflexivity.
Qed.

Lemma range_process_body (l : list process.Process) (s : slice ProcessInfo) :
  range process_body l s =
  (flat_map process_calls l, Val (extend s (map processInfo_of (filter lookups_ok l)))).
Proof.
  revert s. induction l as [|p l IH]; intro s.
  - reflexivity.
  - cbn [range]. rewrite process_body_eq, bind_val, IH.
    cbn [fst snd filter flat_map map].
    destruct (lookups_ok p).
    + now rewrite extend_append.
    + reflexivity.
Qed.

(** *** [sendSnapshot] in closed form *)

Lemma sendSnapshot_eq (hostname : string) (h : Host) :
  sendSnapshot hostname h =
  match provider_error h with
  | Some e => (provider_trace h, Return_err e)
  | None =>
      (provider_trace h ++ [Conn_WriteJSON (snapshot hostname h)],
       write_result hostname h)
  end.
Proof.
  unfold sendSnapshot, provider_error, provider_trace, write_result, snapshot,
    kept_partitions, kept_processes, call_check, failed.
  destruct (Uptime_at h) as [uptime [e|]]; [reflexivity|].
  destruct (VirtualMemory_at h) as [v [e|]]; [reflexivity|].
  destruct (Avg_at h) as [avg [e|]]; [reflexivity|].
  destruct (Partitions_at h) as [partitions [e|]]; [reflexivity|].
  destruct (Processes_at h) as [processes [e|]].
  - cbn [bind fst snd app]. rewrite range_partition_body.
    cbn [bind fst snd app]. reflexivity.
  - cbn [bind fst snd app]. rewrite range_partition_body.
    cbn [bind fst snd app]. rewrite range_process_body.
    cbn [bind fst snd app]. rewrite <- !app_assoc. reflexivity.
Qed.

(** *** Comparison of float64 values *)

Lemma SFcompare_antisym (x y : SpecFloat.spec_float) :
  SpecFloat.SFcompare y x = option_map CompOpp (SpecFloat.SFcompare x y).
Proof.
  destruct x as [sx|sx| |sx mx ex], y as [sy|sy| |sy my ey]; cbn;
    try reflexivity;
    try (destruct sx; reflexivity);
    try (destruct sy; reflexivity);
    try (destruct sx, sy; reflexivity).
  destruct sx, sy; cbn; try reflexivity;
    rewrite (Z.compare_antisym ex ey);
    destruct (ex ?= ey)%Z; cbn; try reflexivity;
    change (Pos.compare_cont Eq my mx) with (Pos.compare my mx);
    change (Pos.compare_cont Eq mx my) with (Pos.compare mx my);
    rewrite (Pos.compare_antisym mx my);
    destruct (mx ?= my)%positive; reflexivity.
Qed.

Lemma float64_gt_asym (a b : float64) :
  float64_gt a b = true -> float64_gt b a = false.
Proof.
  unfold float64_gt. rewrite !ltb_spec. unfold SpecFloat.SFltb.
  rewrite (SFcompare_antisym (Prim2SF b) (Prim2SF a)).
  destruct (SpecFloat.SFcompare (Prim2SF b) (Prim2SF a)) as [[| |]|];
    cbn; congruence.
Qed.

(** *** [sort.Slice] *)

Lemma adjacent_spec {A} (R : A -> A -> bool) (l : list A) :
  adjacent R l = true <->
  (forall l1 a b l2, l = l1 ++ a :: b :: l2 -> R a b = true).
Proof.
  induction l as [|x l IH].
  - split; [|reflexivity]. intros _ [|c l1] a b l2 H; discriminate H.
  - destruct l as [|y l].
    + split; [|reflexivity].
      intros _ [|c [|d l1]] a b l2 H; discriminate H.
    + change (adjacent R (x :: y :: l)) with (R x y && adjacent R (y :: l)).
      rewrite andb_true_iff, IH. split.
      * intros [Hxy Hl] [|c l1] a b l2 H.
        -- injection H as -> -> _. exact Hxy.
        -- injection H as _ H. exact (Hl l1 a b l2 H).
      * intros H. split.
        -- exact (H [] x y l eq_refl).
        -- intros l1 a b l2 E. apply (H (x :: l1) a b l2). now rewrite E.
Qed.

Lemma adjacent_rev {A} (R : A -> A -> bool) (l : list A) :
  adjacent R l = true -> adjacent (fun a b => R b a) (rev l) = true.
Proof.
  rewrite !adjacent_spec. intros H l1 a b l2 E.
  apply (H (rev l2) b a (rev l1)).
  rewrite <- (rev_involutive l), E, rev_app_distr. cbn [rev].
  now rewrite <- !app_assoc.
Qed.

Section SortFacts.
Context {A : Type} (less : A -> A -> bool).

Lemma sift_perm (x : A) (left : list A) :
  Permutation (x :: left) (sift less x left).
Proof.
  induction left as [|y left IH]; cbn [sift].
  - apply Permutation_refl.
  - destruct (less x y).
    + apply perm_trans with (y :: x :: left).
      * apply perm_swap.
      * now apply perm_skip.
    + apply Permutation_refl.
Qed.

Lemma fold_sift_perm (data left : list A) :
  Permutation (rev data ++ left)
    (fold_left (fun left x => sift less x left) data left).
Proof.
  revert left. induction data as [|x data IH]; intro left; cbn [fold_left rev].
  - apply Permutation_refl.
  - rewrite <- app_assoc. cbn [app].
    apply perm_trans with (rev data ++ sift less x left).
    + apply Permutation_app_head, sift_perm.
    + apply IH.
Qed.

Lemma insertionSort_perm (data : list A) :
  Permutation data (insertionSort less data).
Proof.
  unfold insertionSort.
  apply perm_trans with (rev data); [apply Permutation_rev|].
  apply perm_trans with (fold_left (fun left x => sift less x left) data []).
  - rewrite <- (app_nil_r (rev data)) at 1. apply fold_sift_perm.
  - apply Permutation_rev.
Qed.

Hypothesis less_asym : forall a b, less a b = true -> less b a = false.

(** In the part already in place no element is [less] than the one
    before it in the slice. *)
Lemma sift_adjacent (x : A) (left : list A) :
  adjacent (fun y z => negb (less y z)) left = true ->
  adjacent (fun y z => negb (less y z)) (sift less x left) = true.
Proof.
  induction left as [|y left IH]; intro H.
  - reflexivity.
  - cbn [sift]. destruct (less x y) eqn:Exy.
    + destruct left as [|z left].
      * cbn. now rewrite (less_asym _ _ Exy).
      * change (negb (less y z)
                && adjacent (fun y z => negb (less y z)) (z :: left) = true) in H.
        apply andb_true_iff in H as [Hyz Hl].
        specialize (IH Hl). cbn [sift] in IH |- *.
        destruct (less x z) eqn:Exz.
        -- change (negb (less y z)
                   && adjacent (fun y z => negb (less y z))
                        (z :: sift less x left) = true).
           now rewrite Hyz, IH.
        -- change (negb (less y x)
                   && adjacent (fun y z => negb (less y z))
                        (x :: z :: left) = true).
           now rewrite (less_asym _ _ Exy), IH.
    + change (negb (less x y)
              && adjacent (fun y z => negb (less y z)) (y :: left) = true).
      now rewrite Exy, H.
Qed.

Lemma fold_sift_adjacent (data left : list A) :
  adjacent (fun y z => negb (less y z)) left = true ->
  adjacent (fun y z => negb (less y z))
    (fold_left (fun left x => sift less x left) data left) = true.
Proof.
  revert left. induction data as [|x data IH]; intros left H; cbn [fold_left].
  - exact H.
  - apply IH, sift_adjacent, H.
Qed.

Lemma insertionSort_adjacent (data : list A) :
  adjacent (fun a b => negb (less b a)) (insertionSort less data) = true.
Proof.
  unfold insertionSort.
  apply (adjacent_rev (fun y z => negb (less y z))).
  now apply fold_sift_adjacent.
Qed.
End SortFacts.

(** *** Reading a trace piece by piece *)

Ltac by_events a :=
  induction a as [|[] ?]; cbn; try reflexivity; try congruence.

Lemma sent_snapshots_app (a b : list Event) :
  sent_snapshots (a ++ b) = sent_snapshots a ++ sent_snapshots b.
Proof. by_events a. Qed.

Lemma beats_app (a b : list Event) : beats (a ++ b) = beats a ++ beats b.
Proof. by_events a. Qed.

Lemma attempts_app (a b : list Event) :
  attempts (a ++ b) = (attempts a + attempts b)%nat.
Proof.
  induction a as [|e a IH]; [reflexivity|].
  destruct e as [[]| | | | | | | | | | | | | | |]; cbn; congruence.
Qed.

Lemma usage_lookups_app (a b : list Event) :
  usage_lookups (a ++ b) = usage_lookups a ++ usage_lookups b.
Proof.
  induction a as [|e a IH]; [reflexivity|].
  destruct e as [[]| | | | | | | | | | | | | | |]; cbn; congruence.
Qed.

Lemma close_frames_app (a b : list Event) :
  close_frames (a ++ b) = close_frames a ++ close_frames b.
Proof.
  induction a as [|e a IH]; [reflexivity|].
  destruct e; cbn; try congruence.
  destruct (messageType =? websocket_CloseMessage); cbn; congruence.
Qed.

Lemma calls_only_app (a b : list Event) :
  calls_only a -> calls_only b -> calls_only (a ++ b).
Proof. intros Ha Hb. apply Forall_app. now split. Qed.

Lemma calls_only_cons (c : Call) (t : list Event) :
  calls_only t -> calls_only (Provider c :: t).
Proof. intro H. constructor; [now exists c | exact H]. Qed.

Lemma calls_only_nil : calls_only [].
Proof. constructor. Qed.

Create HintDb calls.
#[local] Hint Resolve calls_only_app calls_only_cons calls_only_nil : calls.

Lemma usage_calls_only (l : list disk.PartitionStat) : calls_only (usage_calls l).
Proof. induction l; cbn; auto with calls. Qed.

Lemma process_calls_only (p : process.Process) : calls_only (process_calls p).
Proof.
  unfold process_calls.
  destruct (failed (process.Name p)), (failed (process.MemoryInfo p));
    auto 10 with calls.
Qed.

Lemma processes_calls_only (l : list process.Process) :
  calls_only (flat_map process_calls l).
Proof.
  induction l as [|p l IH]; cbn [flat_map].
  - apply calls_only_nil.
  - apply calls_only_app; [apply process_calls_only | exact IH].
Qed.

#[local] Hint Resolve usage_calls_only processes_calls_only : calls.

Lemma provider_trace_calls_only (h : Host) : calls_only (provider_trace h).
Proof.
  unfold provider_trace.
  destruct (failed (Uptime_at h)), (failed (VirtualMemory_at h)),
    (failed (Avg_at h)), (failed (Partitions_at h)), (failed (Processes_at h));
    auto 12 with calls.
Qed.

Lemma calls_only_sent (t : list Event) : calls_only t -> sent_snapshots t = [].
Proof. induction 1 as [|e t [c ->] _ IH]; [reflexivity | exact IH]. Qed.

Lemma calls_only_beats (t : list Event) : calls_only t -> beats t = [].
Proof. induction 1 as [|e t [c ->] _ IH]; [reflexivity | exact IH]. Qed.

Lemma calls_only_close_frames (t : list Event) : calls_only t -> close_frames t = [].
Proof. induction 1 as [|e t [c ->] _ IH]; [reflexivity | exact IH]. Qed.

Lemma calls_only_wg (t : list Event) :
  calls_only t -> forallb (fun e => negb (moves_wg e)) t = true.
Proof. induction 1 as [|e t [c ->] _ IH]; [reflexivity | exact IH]. Qed.




Lemma usage_calls_lookups (l : list disk.PartitionStat) :
  usage_lookups (usage_calls l) = map disk.Mountpoint l.
Proof.
  induction l as [|p l IH]; [reflexivity|].
  cbn [usage_calls map usage_lookups]. f_equal. exact IH.
Qed.

Lemma processes_calls_lookups (l : list process.Process) :
  usage_lookups (flat_map process_calls l) = [].
Proof.
  induction l as [|p l IH]; [reflexivity|].
  cbn [flat_map]. rewrite usage_lookups_app, IH. unfold process_calls.
  destruct (failed (process.Name p)), (failed (process.MemoryInfo p)); reflexivity.
Qed.

(** *** One call of [sendSnapshot] *)

Lemma write_result_no_panic (hostname : string) (h : Host) :
  write_result hostname h <> Panic.
Proof. unfold write_result. destruct (WriteJSON_at h _); discriminate. Qed.

Lemma sendSnapshot_no_panic (hostname : string) (h : Host) :
  snd (sendSnapshot hostname h) <> Panic.
Proof.
  rewrite sendSnapshot_eq. destruct (provider_error h); cbn.
  - discriminate.
  - apply write_result_no_panic.
Qed.

Lemma sendSnapshot_sent (hostname : string) (h : Host) :
  sent_snapshots (fst (sendSnapshot hostname h)) =
  match provider_error h with
  | Some _ => []
  | None => [snapshot hostname h]
  end.
Proof.
  rewrite sendSnapshot_eq. destruct (provider_error h); cbn [fst].
  - apply calls_only_sent, provider_trace_calls_only.
  - rewrite sent_snapshots_app, calls_only_sent by apply provider_trace_calls_only.
    reflexivity.
Qed.

Lemma sendSnapshot_beats (hostname : string) (h : Host) :
  beats (fst (sendSnapshot hostname h)) =
  match provider_error h with
  | Some _ => []
  | None => [Send]
  end.
Proof.
  rewrite sendSnapshot_eq. destruct (provider_error h); cbn [fst].
  - apply calls_only_beats, provider_trace_calls_only.
  - rewrite beats_app, calls_only_beats by apply provider_trace_calls_only.
    reflexivity.
Qed.

Lemma sendSnapshot_close_frames (hostname : string) (h : Host) :
  close_frames (fst (sendSnapshot hostname h)) = [].
Proof.
  rewrite sendSnapshot_eq. destruct (provider_error h); cbn [fst].
  - apply calls_only_close_frames, provider_trace_calls_only.
  - rewrite close_frames_app, calls_only_close_frames
      by apply provider_trace_calls_only.
    reflexivity.
Qed.


Lemma sendSnapshot_wg (hostname : string) (h : Host) :
  forallb (fun e => negb (moves_wg e)) (fst (sendSnapshot hostname h)) = true.
Proof.
  rewrite sendSnapshot_eq. destruct (provider_error h); cbn [fst].
  - apply calls_only_wg, provider_trace_calls_only.
  - rewrite forallb_app, calls_only_wg by apply provider_trace_calls_only.
    reflexivity.
Qed.

(** *** The loop and the handler *)

Lemma delivers_inv (hostname : string) (h : Host) :
  delivers hostname h = true ->
  sendSnapshot hostname h = (fst (sendSnapshot hostname h), Val tt).
Proof.
  unfold delivers. destruct (sendSnapshot hostname h) as [t [[]|e|]];
    cbn; congruence.
Qed.

Lemma loop_delivered (hostname : string) (hs : list Host) (rest : list Wake) :
  Forall (fun h => delivers hostname h = true) hs ->
  loop hostname (map Elapsed hs ++ rest) =
  (ticks_trace hostname hs ++ fst (loop hostname rest), snd (loop hostname rest)).
Proof.
  induction 1 as [|h hs Hh _ IH]; cbn [map app ticks_trace flat_map].
  - now destruct (loop hostname rest).
  - cbn [loop]. rewrite (delivers_inv _ _ Hh), IH.
    cbn [fst snd]. now rewrite <- app_assoc.
Qed.



Lemma loop_no_panic (hostname : string) (wakes : list Wake) :
  snd (loop hostname wakes) <> Panicked.
Proof.
  induction wakes as [|[|h] wakes IH]; [discriminate | discriminate |].
  cbn [loop]. pose proof (sendSnapshot_no_panic hostname h) as P.
  destruct (sendSnapshot hostname h) as [t [[]|e|]]; cbn [snd] in P.
  - now destruct (loop hostname wakes).
  - discriminate.
  - now contradiction P.
Qed.

Lemma loop_sent (hostname : string) (wakes : list Wake) (rs : Resources) :
  In rs (sent_snapshots (fst (loop hostname wakes))) ->
  exists h, rs = snapshot hostname h.
Proof.
  induction wakes as [|[|h] wakes IH]; [intros [] | intros [] |].
  cbn [loop]. pose proof (sendSnapshot_sent hostname h) as S.
  assert (In rs (sent_snapshots (fst (sendSnapshot hostname h))) ->
          exists h, rs = snapshot hostname h) as Hh.
  { rewrite S. destruct (provider_error h); [intros [] |].
    intros [<-|[]]. now exists h. }
  destruct (sendSnapshot hostname h) as [t [[]|e|]]; cbn [fst] in Hh |- *.
  - destruct (loop hostname wakes) as [t' st]. cbn [fst sent_snapshots] in IH |- *.
    rewrite sent_snapshots_app, in_app_iff. intros [H|H]; auto.
  - cbn [sent_snapshots]. rewrite sent_snapshots_app, in_app_iff.
    intros [H|[]]; auto.
  - exact Hh.
Qed.

Lemma loop_wg (hostname : string) (wakes : list Wake) :
  forallb (fun e => negb (moves_wg e)) (fst (loop hostname wakes)) = true.
Proof.
  induction wakes as [|[|h] wakes IH]; [reflexivity | reflexivity |].
  cbn [loop]. pose proof (sendSnapshot_wg hostname h) as W.
  destruct (sendSnapshot hostname h) as [t [[]|e|]]; cbn [fst] in W |- *.
  - destruct (loop hostname wakes) as [t' st]. cbn [fst forallb] in IH |- *.
    now rewrite forallb_app, W, IH.
  - cbn [forallb]. now rewrite forallb_app, W.
  - cbn [forallb]. now rewrite W.
Qed.

Lemma session_no_panic (req : Request) : snd (session req) <> Panicked.
Proof.
  unfold session. destruct (Hostname_at req) as [hostname [e|]]; [discriminate|].
  pose proof (sendSnapshot_no_panic hostname (first req)) as P.
  pose proof (loop_no_panic hostname (wakes req)) as L.
  destruct (sendSnapshot hostname (first req)) as [t [[]|e|]]; cbn [snd] in P.
  - now destruct (loop hostname (wakes req)).
  - discriminate.
  - now contradiction P.
Qed.

Lemma session_sent (req : Request) (rs : Resources) :
  In rs (sent_snapshots (fst (session req))) ->
  exists h, rs = snapshot (fst (Hostname_at req)) h.
Proof.
  unfold session. destruct (Hostname_at req) as [hostname [e|]]; [intros []|].
  cbn [fst]. pose proof (sendSnapshot_sent hostname (first req)) as S.
  assert (In rs (sent_snapshots (fst (sendSnapshot hostname (first req)))) ->
          exists h, rs = snapshot hostname h) as Hh.
  { rewrite S. destruct (provider_error (first req)); [intros [] |].
    intros [<-|[]]. now exists (first req). }
  pose proof (loop_sent hostname (wakes req) rs) as L.
  destruct (sendSnapshot hostname (first req)) as [t [[]|e|]]; cbn [fst] in Hh |- *.
  - destruct (loop hostname (wakes req)) as [t' st]. cbn [fst sent_snapshots] in L |- *.
    rewrite sent_snapshots_app, in_app_iff. intros [H|H]; auto.
  - cbn [sent_snapshots]. rewrite sent_snapshots_app, in_app_iff.
    intros [H|[]]; auto.
  - exact Hh.
Qed.

Lemma session_wg (req : Request) :
  forallb (fun e => negb (moves_wg e)) (fst (session req)) = true.
Proof.
  unfold session. destruct (Hostname_at req) as [hostname [e|]]; [reflexivity|].
  pose proof (sendSnapshot_wg hostname (first req)) as W.
  pose proof (loop_wg hostname (wakes req)) as L.
  destruct (sendSnapshot hostname (first req)) as [t [[]|e|]]; cbn [fst] in W |- *.
  - destruct (loop hostname (wakes req)) as [t' st]. cbn [fst forallb] in L |- *.
    now rewrite forallb_app, W, L.
  - cbn [forallb]. now rewrite forallb_app, W.
  - cbn [forallb]. now rewrite W.
Qed.

Lemma wsHandler_sent (req : Request) (rs : Resources) :
  In rs (sent_snapshots (fst (wsHandler req))) ->
  exists hostname h, rs = snapshot hostname h.
Proof.
  unfold wsHandler. destruct (Upgrade_at req); [intros []|].
  pose proof (session_sent req rs) as S.
  destruct (session req) as [t st]. cbn [fst sent_snapshots] in S |- *.
  rewrite sent_snapshots_app, in_app_iff. intros [H|H].
  - destruct (S H) as [h ->]. eauto.
  - destruct st; destruct H.
Qed.

Lemma wsHandler_wg (req : Request) :
  forallb (fun e => negb (moves_wg e)) (fst (wsHandler req)) = true.
Proof.
  unfold wsHandler. destruct (Upgrade_at req); [reflexivity|].
  pose proof (session_wg req) as S.
  destruct (session req) as [t st]. cbn [fst forallb] in S |- *.
  rewrite forallb_app, S. now destruct st.
Qed.

Lemma wg_unmoved (t : list Event) (c : Z) :
  forallb (fun e => negb (moves_wg e)) t = true -> fold_left wg_step t c = c.
Proof.
  induction t as [|e t IH]; [reflexivity|].
  cbn [forallb fold_left]. intros H. apply andb_true_iff in H as [He Ht].
  destruct e; try discriminate He; exact (IH Ht).
Qed.

Lemma handlers_wg (w : World) :
  forallb (fun e => negb (moves_wg e)) (handlers_trace w) = true.
Proof.
  unfold handlers_trace. induction (sessions w) as [|req l IH]; [reflexivity|].
  cbn [map List.concat]. now rewrite forallb_app, wsHandler_wg, IH.
Qed.

Lemma snapshot_never_ascending (hostname : string) (h : Host) :
  never_ascending (elems (Processes (snapshot hostname h))) = true.
Proof.
  unfold snapshot, never_ascending. cbn [Processes].
  destruct (extend None (kept_processes h)) as [l|]; [|reflexivity].
  cbn [sort_Slice option_map elems].
  apply (insertionSort_adjacent less_cpu).
  intros a b. apply float64_gt_asym.
Qed.

Lemma snapshot_processes_perm (hostname : string) (h : Host) :
  Permutation (elems (Processes (snapshot hostname h))) (kept_processes h).
Proof.
  unfold snapshot. cbn [Processes].
  pose proof (elems_extend (@None (list ProcessInfo)) (kept_processes h)) as E.
  cbn [elems app] in E.
  destruct (extend None (kept_processes h)) as [l|]; cbn [elems] in E;
    cbn [sort_Slice option_map elems]; rewrite <- E.
  - apply Permutation_sym, insertionSort_perm.
  - apply Permutation_refl.
Qed.

Ltac read_trace :=
  repeat (cbn [close_frames attempts app];
          rewrite ?close_frames_app, ?attempts_app).

Lemma provider_ok_trace (h : Host) :
  provider_error h = None ->
  provider_trace h =
  [Provider host_Uptime; Provider mem_VirtualMemory; Provider load_Avg;
   Provider disk_Partitions]
  ++ usage_calls (fst (Partitions_at h))
  ++ Provider process_Processes :: flat_map process_calls (fst (Processes_at h)).
Proof.
  unfold provider_error, provider_trace, failed.
  destruct (snd (Uptime_at h)); [discriminate|].
  destruct (snd (VirtualMemory_at h)); [discriminate|].
  destruct (snd (Avg_at h)); [discriminate|].
  destruct (snd (Partitions_at h)); [discriminate|].
  destruct (snd (Processes_at h)); [discriminate|]. reflexivity.
Qed.

Lemma ticks_trace_close_frames (hostname : string) (hs : list Host) :
  close_frames (ticks_trace hostname hs) = [].
Proof.
  induction hs as [|h hs IH]; [reflexivity|].
  cbn [ticks_trace flat_map close_frames app].
  now rewrite close_frames_app, sendSnapshot_close_frames.
Qed.


Lemma forallb_firstn {A} (f : A -> bool) (n : nat) (l : list A) :
  forallb f l = true -> forallb f (firstn n l) = true.
Proof.
  revert n. induction l as [|a l IH]; intros [|n] H; try reflexivity.
  cbn [firstn forallb] in *. apply andb_true_iff in H as [Ha Hl].
  now rewrite Ha, IH.
Qed.

Lemma serve_after_Shutdown (app : application) (w : World) :
  ListenAndServe_at w = http_ErrServerClosed ->
  snd (serve app w) = Serve_returns (Some http_ErrServerClosed).
Proof. intro H. unfold serve. rewrite H. reflexivity. Qed.

(** The same test makes [serve] wait for a signal and then return nil
    when the listener could not even be started. *)
Example serve_bind_failure_returns_nil :
  snd (serve app0 world_bind_failure) = Serve_returns None /\
  main world_bind_failure = Some 0.
Proof. split; vm_compute; reflexivity. Qed.

(** ** The claims *)

(** C1 (the code departs from it).  On a graceful stop -- the only
    session has returned, the server's connections are idle, the
    goroutine's outcome is nil -- [serve] does not return nil: it hands
    back http.ErrServerClosed, the error [srv.ListenAndServe] reports
    once [Shutdown] has been called, and [main] exits with status 1. *)
Theorem serve_graceful_stop_returns_ErrServerClosed :
  session_active world_graceful = false /\
  first_sent (fst (shutdown_goroutine app0 world_graceful false)) = Some None /\
  snd (serve app0 world_graceful) = Serve_returns (Some http_ErrServerClosed) /\
  main world_graceful = Some 1.
Proof. repeat split; vm_compute; reflexivity. Qed.

(** C2, as stated, fails: with a session open and running the counter
    of [app.wg] is not one more than before. *)
Lemma open_session_does_not_register :
  running req_open = true /\
  wg_counter app0 (fst (wsHandler req_open)) <> wg app0 + 1.
Proof. split; vm_compute; [reflexivity | discriminate]. Qed.

(** C2, amended.  [wsHandler] never calls [Add] or [Done] on [app.wg]:
    at every point of every session, whatever path ends it, the
    counter is what it was before the connection. *)
Theorem wsHandler_leaves_wg_alone (app : application) (req : Request) (n : nat) :
  forallb (fun e => negb (moves_wg e)) (fst (wsHandler req)) = true /\
  wg_counter app (firstn n (fst (wsHandler req))) = wg app.
Proof.
  split; [apply wsHandler_wg|].
  apply wg_unmoved, forallb_firstn, wsHandler_wg.
Qed.






(** Scenario B: A at 10% then B at 90% are sent as B, A. *)
Example scenario_B_order :
  map Name (elems (Processes (snapshot "h1" host_B))) = ["B"; "A"]%string.
Proof. vm_compute. reflexivity. Qed.

(** C5, as stated, fails: the session cancelled between two ticks
    writes no close frame at all, so none with the normal-closure code. *)
Lemma cancelled_session_sends_no_close_frame :
  snd (wsHandler req_cancelled) = Returned /\
  ~ (exists d, In d (close_frames (fst (wsHandler req_cancelled))) /\
               closeCode d = websocket_CloseNormalClosure).
Proof.
  split; [vm_compute; reflexivity|].
  intros [d [H _]]. vm_compute in H. exact H.
Qed.

(** C5, amended.  A session cancelled between ticks logs "client
    disconnected", returns and closes the connection through the
    deferred [conn.Close()]; it writes no close frame, neither a normal
    nor an internal-error one. *)
Theorem cancellation_returns_without_close_frame
    (req : Request) (hostname : string) (hs : list Host) (rest : list Wake) :
  Upgrade_at req = None ->
  Hostname_at req = (hostname, None) ->
  ticks req = map Elapsed hs ++ Cancelled :: rest ->
  Forall (fun h => delivers hostname h = true) hs ->
  snd (wsHandler req) = Returned /\
  close_frames (fst (wsHandler req)) = [] /\
  exists pre,
    fst (wsHandler req) = pre ++ [Ctx_Done; Log "client disconnected"; Conn_Close].
Proof.
  intros HU HH HT HF. unfold ticks in HT.
  destruct hs as [|h0 hs]; [discriminate HT|].
  cbn [map app] in HT. injection HT as H0 HW.
  apply Forall_cons_iff in HF as [Hh0 Hhs].
  unfold wsHandler, session. rewrite HU, HH, H0, HW.
  rewrite (delivers_inv _ _ Hh0), (loop_delivered _ _ _ Hhs).
  cbn [loop fst snd deferred]. repeat split.
  - read_trace.
    now rewrite sendSnapshot_close_frames, ticks_trace_close_frames.
  - exists (Upgrader_Upgrade :: os_Hostname_ :: fst (sendSnapshot hostname h0)
            ++ ticks_trace hostname hs).
    cbn [app]. now rewrite <- !app_assoc.
Qed.

Lemma cancellation_returns_without_close_frame_witness :
  snd (wsHandler req_cancelled) = Returned /\
  close_frames (fst (wsHandler req_cancelled)) = [] /\
  exists pre,
    fst (wsHandler req_cancelled)
    = pre ++ [Ctx_Done; Log "client disconnected"; Conn_Close].
Proof.
  apply (cancellation_returns_without_close_frame req_cancelled "h1"
           [host_A; host_B] []).
  - reflexivity.
  - reflexivity.
  - reflexivity.
  - repeat constructor.
Defined.






(** C8.  The snapshot [sendSnapshot] writes holds, in the Provider's
    order, one entry for each partition whose usage lookup succeeded and
    none for the others, each path being looked up exactly once; its
    processes are, up to the order that sorting gives them, one entry
    for each process whose name and memory-info lookups both succeeded
    and none for the others.  The entries carry every field. *)
Theorem failed_lookups_are_omitted (hostname : string) (h : Host) :
  provider_error h = None ->
  exists rs,
    sent_snapshots (fst (sendSnapshot hostname h)) = [rs] /\
    elems (Partitions rs) =
      map (diskPartition_of h) (filter (usage_ok h) (fst (Partitions_at h))) /\
    usage_lookups (fst (sendSnapshot hostname h)) =
      map disk.Mountpoint (fst (Partitions_at h)) /\
    Permutation (elems (Processes rs))
      (map processInfo_of (filter lookups_ok (fst (Processes_at h)))).
Proof.
  intro HP. exists (snapshot hostname h). repeat split.
  - now rewrite sendSnapshot_sent, HP.
  - unfold snapshot. cbn [Partitions]. now rewrite elems_extend.
  - rewrite sendSnapshot_eq, HP. cbn [fst].
    rewrite (provider_ok_trace h HP), !usage_lookups_app.
    cbn [usage_lookups]. rewrite usage_calls_lookups, processes_calls_lookups.
    cbn. now rewrite !app_nil_r.
  - apply snapshot_processes_perm.
Qed.

Lemma failed_lookups_are_omitted_witness :
  exists rs,
    sent_snapshots (fst (sendSnapshot "h1" host_partial)) = [rs] /\
    elems (Partitions rs) =
      map (diskPartition_of host_partial)
        (filter (usage_ok host_partial) (fst (Partitions_at host_partial))) /\
    usage_lookups (fst (sendSnapshot "h1" host_partial)) =
      map disk.Mountpoint (fst (Partitions_at host_partial)) /\
    Permutation (elems (Processes rs))
      (map processInfo_of (filter lookups_ok (fst (Processes_at host_partial)))).
Proof. apply (failed_lookups_are_omitted "h1" host_partial). reflexivity. Defined.

(** On the sample host one partition of two and one process of three
    are kept. *)
Example host_partial_kept :
  map Device (kept_partitions host_partial) = ["/dev/sda1"]%string /\
  map Name (kept_processes host_partial) = ["sshd"]%string.
Proof. split; vm_compute; reflexivity. Qed.

(** C9, as stated, fails: with a WebSocket session still running when
    the stop completes, the goroutine's outcome is nil -- not forced. *)
Lemma graceful_reported_with_session_active :
  ~ (forced (fst (shutdown_goroutine app0 world_session_active false)) = true
     <-> session_active world_session_active = true).
Proof.
  intros [_ H]. specialize (H eq_refl). vm_compute in H. discriminate H.
Qed.

(** C9, amended.  From the moment draining begins the goroutine's only
    bounded wait is [srv.Shutdown] under its 20-second context; the
    wait on [app.wg] that follows has no deadline of its own but
    returns at once, no session having moved the counter.  So the
    goroutine puts its outcome on [shutdownError] no later than 20
    seconds after the stop request, and that outcome is an error
    exactly when [srv.Shutdown] returned one, that is when the
    connections the server tracks were not idle by then -- whether or
    not a session is still running. *)
Theorem drain_bounded_by_srv_Shutdown
    (app : application) (w : World) (s : string) (receiving : bool) :
  quit_at w = Some s ->
  wg app = 0 ->
  let t := fst (shutdown_goroutine app w receiving) in
  exists elapsed v,
    In (Srv_Shutdown (20 * time_Second) elapsed) t /\
    elapsed <= 20 * time_Second /\
    first_sent t = Some v /\
    (v = None -> In Wg_Wait t) /\
    (forced t = true <-> snd (srv_Shutdown (20 * time_Second) (idle_at w)) <> None) /\
    (forced t = true <->
     ~ exists d, idle_at w = Some d /\ d <= 20 * time_Second).
Proof.
  intros HQ HW. cbv zeta. unfold shutdown_goroutine. rewrite HQ.
  assert ((wg_counter app (handlers_trace w) =? 0) = true) as ->.
  { unfold wg_counter. rewrite wg_unmoved by apply handlers_wg.
    rewrite HW. reflexivity. }
  unfold srv_Shutdown. destruct (idle_at w) as [d|].
  - destruct (Z.leb_spec d (20 * time_Second)) as [Hd|Hd].
    + exists d, None. unfold forced, time_Second in *. cbn.
      repeat split; try tauto; try lia; try discriminate.
      intro H. exfalso. apply H. exists d. split; [reflexivity | lia].
    + exists (20 * time_Second), (Some context_DeadlineExceeded).
      unfold forced, time_Second in *.
      destruct receiving; cbn; repeat split;
        try tauto; try lia; try discriminate.
      all: intros _ [d' [E Hd']]; injection E as <-; lia.
  - exists (20 * time_Second), (Some context_DeadlineExceeded).
    unfold forced, time_Second in *.
    destruct receiving; cbn; repeat split;
      try tauto; try lia; try discriminate.
    all: intros _ [d' [E Hd']]; discriminate E.
Qed.

Lemma drain_bounded_by_srv_Shutdown_witness :
  exists elapsed v,
    In (Srv_Shutdown (20 * time_Second) elapsed)
       (fst (shutdown_goroutine app0 world_busy false)) /\
    elapsed <= 20 * time_Second /\
    first_sent (fst (shutdown_goroutine app0 world_busy false)) = Some v /\
    (v = None -> In Wg_Wait (fst (shutdown_goroutine app0 world_busy false))) /\
    (forced (fst (shutdown_goroutine app0 world_busy false)) = true <->
     snd (srv_Shutdown (20 * time_Second) (idle_at world_busy)) <> None) /\
    (forced (fst (shutdown_goroutine app0 world_busy false)) = true <->
     ~ exists d, idle_at world_busy = Some d /\ d <= 20 * time_Second).
Proof.
  apply (drain_bounded_by_srv_Shutdown app0 world_busy "interrupt" false);
    reflexivity.
Defined.

(** C10.  [firstOrEmpty] returns the first element of a non-empty list
    and the empty string for the empty list, and never indexes out of
    range; so the loop body that builds a ProcessInfo never panics, the
    status it stores is that value, and no handler panics. *)
Theorem firstOrEmpty_first_or_empty :
  (forall x s, firstOrEmpty (x :: s) = Some x) /\
  firstOrEmpty [] = Some EmptyString /\
  (forall s, firstOrEmpty s <> None) /\
  (forall processInfos p,
     snd (process_body processInfos p) =
       Val (if lookups_ok p then append processInfos (processInfo_of p)
            else processInfos) /\
     Status (processInfo_of p) = first_or_empty (fst (process.Status p))) /\
  (forall req, snd (wsHandler req) <> Panicked).
Proof.
  repeat split.
  - intro s. rewrite firstOrEmpty_eq. discriminate.
  - now rewrite process_body_eq.
  - intros req. unfold wsHandler. destruct (Upgrade_at req); [discriminate|].
    pose proof (session_no_panic req) as P.
    now destruct (session req).
Qed.

(** ** Further properties of [wsHandler] *)

Lemma occurrences_app (f : Event -> bool) (a b : list Event) :
  occurrences f (a ++ b) = (occurrences f a + occurrences f b)%nat.
Proof. unfold occurrences. now rewrite filter_app, length_app. Qed.

Lemma calls_only_occurrences (f : Event -> bool) (t : list Event) :
  (forall c, f (Provider c) = false) -> calls_only t -> occurrences f t = O.
Proof.
  intros Hf. induction 1 as [|e t [c ->] _ IH]; [reflexivity|].
  unfold occurrences in *. cbn [filter]. now rewrite Hf.
Qed.

Lemma sendSnapshot_occurrences (f : Event -> bool) (hostname : string) (h : Host) :
  (forall c, f (Provider c) = false) ->
  (forall rs, f (Conn_WriteJSON rs) = false) ->
  occurrences f (fst (sendSnapshot hostname h)) = O.
Proof.
  intros Hc Hw. rewrite sendSnapshot_eq.
  pose proof (calls_only_occurrences f _ Hc (provider_trace_calls_only h)) as P.
  destruct (provider_error h); cbn [fst]; [exact P|].
  rewrite occurrences_app, P. unfold occurrences. cbn [filter]. now rewrite Hw.
Qed.




(** What the loop does with more wake-ups than it has had so far. *)
Lemma loop_app (hostname : string) (ws more : list Wake) :
  loop hostname (ws ++ more) =
  match snd (loop hostname ws) with
  | Blocked =>
      (fst (loop hostname ws) ++ fst (loop hostname more), snd (loop hostname more))
  | _ => loop hostname ws
  end.
Proof.
  induction ws as [|[|h] ws IH]; cbn [app].
  - cbn. now destruct (loop hostname more).
  - reflexivity.
  - cbn [loop]. destruct (sendSnapshot hostname h) as [t [[]|e|]]; try reflexivity.
    rewrite IH. destruct (loop hostname ws) as [t' []]; cbn [fst snd]; try reflexivity.
    destruct (loop hostname more) as [t'' st'']. cbn [fst snd app].
    now rewrite app_assoc.
Qed.

Lemma loop_blocked_iff (hostname : string) (ws : list Wake) :
  snd (loop hostname ws) = Blocked <-> forallb (ticking hostname) ws = true.
Proof.
  induction ws as [|[|h] ws IH]; cbn [forallb ticking].
  - cbn. tauto.
  - cbn. split; discriminate.
  - cbn [loop]. unfold delivers.
    destruct (sendSnapshot hostname h) as [t [[]|e|]]; cbn [snd andb].
    + destruct (loop hostname ws) as [t' st]. exact IH.
    + split; discriminate.
    + split; discriminate.
Qed.












Lemma loop_no_os_Hostname (hostname : string) (ws : list Wake) :
  occurrences is_os_Hostname (fst (loop hostname ws)) = O.
Proof.
  induction ws as [|[|h] ws IH]; [reflexivity | reflexivity |].
  cbn [loop].
  assert (occurrences is_os_Hostname (fst (sendSnapshot hostname h)) = O) as O
    by now apply sendSnapshot_occurrences.
  destruct (sendSnapshot hostname h) as [t [[]|e|]]; cbn [fst] in O |- *.
  - destruct (loop hostname ws) as [t' st]. cbn [fst] in IH |- *.
    change (Time_After (1 * time_Second) :: t ++ t')
      with ([Time_After (1 * time_Second)] ++ t ++ t').
    now rewrite !occurrences_app, O, IH.
  - change (Time_After (1 * time_Second) :: t ++ sendClose e)
      with ([Time_After (1 * time_Second)] ++ t ++ sendClose e).
    now rewrite !occurrences_app, O.
  - change (Time_After (1 * time_Second) :: t)
      with ([Time_After (1 * time_Second)] ++ t).
    now rewrite !occurrences_app, O.
Qed.

Lemma session_one_os_Hostname (req : Request) :
  occurrences is_os_Hostname (fst (session req)) = 1%nat.
Proof.
  unfold session. destruct (Hostname_at req) as [hostname [e|]]; [reflexivity|].
  assert (occurrences is_os_Hostname (fst (sendSnapshot hostname (first req))) = O)
    as O by now apply sendSnapshot_occurrences.
  pose proof (loop_no_os_Hostname hostname (wakes req)) as L.
  destruct (sendSnapshot hostname (first req)) as [t [[]|e|]]; cbn [fst] in O |- *.
  - destruct (loop hostname (wakes req)) as [t' st]. cbn [fst] in L |- *.
    change (os_Hostname_ :: t ++ t') with ([os_Hostname_] ++ t ++ t').
    now rewrite !occurrences_app, O, L.
  - change (os_Hostname_ :: t ++ sendClose e)
      with ([os_Hostname_] ++ t ++ sendClose e).
    now rewrite !occurrences_app, O.
  - change (os_Hostname_ :: t) with ([os_Hostname_] ++ t).
    now rewrite !occurrences_app, O.
Qed.

(** X4.  [os.Hostname] is asked once per connection, before the first
    snapshot, and every snapshot of the session carries that answer: a
    host renamed while a session runs keeps its old name there. *)
Theorem snapshots_carry_the_session_hostname (req : Request) (rs : Resources) :
  In rs (sent_snapshots (fst (wsHandler req))) ->
  Hostname rs = fst (Hostname_at req) /\
  occurrences is_os_Hostname (fst (wsHandler req)) = 1%nat.
Proof.
  unfold wsHandler. destruct (Upgrade_at req); [intros []|].
  pose proof (session_sent req rs) as S.
  pose proof (session_one_os_Hostname req) as O.
  destruct (session req) as [t st]. cbn [fst sent_snapshots] in S, O |- *.
  rewrite sent_snapshots_app, in_app_iff. intros [H|H].
  - destruct (S H) as [h ->]. split; [reflexivity|].
    change (Upgrader_Upgrade :: t ++ deferred st)
      with ([Upgrader_Upgrade] ++ t ++ deferred st).
    rewrite !occurrences_app, O. now destruct st.
  - destruct st; destruct H.
Qed.

Lemma snapshots_carry_the_session_hostname_witness :
  Hostname (snapshot "h1" host_B) = fst (Hostname_at req_C) /\
  occurrences is_os_Hostname (fst (wsHandler req_C)) = 1%nat.
Proof.
  apply (snapshots_carry_the_session_hostname req_C).
  vm_compute. right. left. reflexivity.
Defined.

(** X5.  The handler is still in its loop exactly when the handshake and
    [os.Hostname] succeeded and every tick so far, the immediate first
    one included, was a timer tick on which [sendSnapshot] returned
    nil; one cancellation or one failed tick ends it. *)
Theorem session_runs_while_ticks_deliver (req : Request) :
  snd (wsHandler req) = Blocked <->
  Upgrade_at req = None /\
  snd (Hostname_at req) = None /\
  forallb (ticking (fst (Hostname_at req))) (ticks req) = true.
Proof.
  unfold wsHandler, session, ticks. destruct (Upgrade_at req) as [e|].
  - cbn. split; [discriminate | intros [H _]; discriminate H].
  - destruct (Hostname_at req) as [hostname [e|]]; cbn [fst snd].
    + split; [discriminate | intros (_ & H & _); discriminate H].
    + cbn [forallb ticking]. unfold delivers.
      pose proof (loop_blocked_iff hostname (wakes req)) as L.
      destruct (sendSnapshot hostname (first req)) as [t [[]|e|]]; cbn [snd andb].
      * destruct (loop hostname (wakes req)) as [t' st]. cbn [snd] in L |- *.
        rewrite L. tauto.
      * split; [discriminate | intros (_ & _ & H); discriminate H].
      * split; [discriminate | intros (_ & _ & H); discriminate H].
Qed.

(** X6.  Once the handler has returned, nothing that happens later
    matters: with any further timer ticks or cancellations it leaves
    the same trace, so it makes no call and writes nothing after its
    [conn.Close()]. *)
Theorem nothing_happens_after_return (req : Request) (more : list Wake) :
  snd (wsHandler req) <> Blocked ->
  wsHandler (with_wakes req (wakes req ++ more)) = wsHandler req.
Proof.
  unfold wsHandler, session, with_wakes.
  cbn [Upgrade_at Hostname_at first wakes].
  destruct (Upgrade_at req); [reflexivity|].
  destruct (Hostname_at req) as [hostname [e|]]; [reflexivity|].
  destruct (sendSnapshot hostname (first req)) as [t [[]|e|]]; try reflexivity.
  rewrite loop_app.
  destruct (loop hostname (wakes req)) as [t' []]; cbn [fst snd]; try reflexivity.
  intro H. now contradiction H.
Qed.

Lemma nothing_happens_after_return_witness :
  wsHandler (with_wakes req_cancelled (wakes req_cancelled ++ [Elapsed host_A]))
  = wsHandler req_cancelled.
Proof.
  apply (nothing_happens_after_return req_cancelled [Elapsed host_A]).
  discriminate.
Defined.

(** X7.  A handler still in its loop goes on from where it stands: with
    further wake-ups its trace is the trace so far followed by what the
    loop does with them, and by [conn.Close()] if that ends it. *)
Theorem running_session_resumes (req : Request) (more : list Wake) :
  snd (wsHandler req) = Blocked ->
  wsHandler (with_wakes req (wakes req ++ more)) =
  (fst (wsHandler req)
   ++ fst (loop (fst (Hostname_at req)) more)
   ++ deferred (snd (loop (fst (Hostname_at req)) more)),
   snd (loop (fst (Hostname_at req)) more)).
Proof.
  unfold wsHandler, session, with_wakes.
  cbn [Upgrade_at Hostname_at first wakes].
  destruct (Upgrade_at req); [discriminate|].
  destruct (Hostname_at req) as [hostname [e|]]; [discriminate|].
  cbn [fst]. destruct (sendSnapshot hostname (first req)) as [t [[]|e|]];
    try discriminate.
  rewrite loop_app.
  destruct (loop hostname (wakes req)) as [t' []]; cbn [fst snd]; try discriminate.
  intros _. destruct (loop hostname more) as [t'' st'']. cbn [fst snd deferred].
  rewrite app_nil_r. cbn [app]. now rewrite <- !app_assoc.
Qed.

Lemma running_session_resumes_witness :
  wsHandler (with_wakes req_open (wakes req_open ++ [Elapsed host_B; Cancelled])) =
  (fst (wsHandler req_open)
   ++ fst (loop (fst (Hostname_at req_open)) [Elapsed host_B; Cancelled])
   ++ deferred (snd (loop (fst (Hostname_at req_open)) [Elapsed host_B; Cancelled])),
   snd (loop (fst (Hostname_at req_open)) [Elapsed host_B; Cancelled])).
Proof.
  apply (running_session_resumes req_open [Elapsed host_B; Cancelled]).
  reflexivity.
Defined.

(** ** Further properties of [sendSnapshot] *)

Lemma key_le_trans (a b c : Z * Z * Z) : key_le a b -> key_le b c -> key_le a c.
Proof.
  destruct a as [[a1 a2] a3], b as [[b1 b2] b3], c as [[c1 c2] c3].
  unfold key_le. lia.
Qed.

Ltac key_case :=
  split; intro;
  first [ discriminate
        | lia
        | exfalso; lia
        | exfalso; match goal with H : _ <> _ |- _ => apply H; reflexivity end ].

Lemma SFcompare_key (x y : SpecFloat.spec_float) :
  x <> SpecFloat.S754_nan -> y <> SpecFloat.S754_nan ->
  (SpecFloat.SFcompare x y <> Some Lt <-> key_le (float_key y) (float_key x)).
Proof.
  intros Hx Hy.
  destruct x as [sx|sx| |sx mx ex]; try (now contradiction Hx);
  destruct y as [sy|sy| |sy my ey]; try (now contradiction Hy);
    clear Hx Hy;
    cbn [SpecFloat.SFcompare float_key key_le];
    try destruct sx; try destruct sy; cbn [float_key key_le];
    try key_case.
  - change (PosDef.Pos.compare_cont Eq mx my) with (Pos.compare mx my).
    destruct (Z.compare_spec ex ey) as [E|E|E];
      [destruct (Pos.compare_spec mx my) as [M|M|M]; cbn [CompOpp]| |];
      key_case.
  - change (PosDef.Pos.compare_cont Eq mx my) with (Pos.compare mx my).
    destruct (Z.compare_spec ex ey) as [E|E|E];
      [destruct (Pos.compare_spec mx my) as [M|M|M]| |];
      key_case.
Qed.

Lemma is_nan_false (f : float64) :
  PrimFloat.is_nan f = false -> Prim2SF f <> SpecFloat.S754_nan.
Proof.
  unfold PrimFloat.is_nan. rewrite eqb_spec. unfold SpecFloat.SFeqb.
  intros H E. rewrite E in H. discriminate H.
Qed.

Lemma float64_gt_key (a b : float64) :
  PrimFloat.is_nan a = false -> PrimFloat.is_nan b = false ->
  (float64_gt b a = false <->
   key_le (float_key (Prim2SF b)) (float_key (Prim2SF a))).
Proof.
  intros Ha Hb. unfold float64_gt. rewrite ltb_spec. unfold SpecFloat.SFltb.
  rewrite <- (SFcompare_key _ _ (is_nan_false _ Ha) (is_nan_false _ Hb)).
  destruct (SpecFloat.SFcompare (Prim2SF a) (Prim2SF b)) as [[| |]|];
    split; congruence.
Qed.

Lemma never_ascending_cons (a b : ProcessInfo) (l : list ProcessInfo) :
  never_ascending (a :: b :: l) = true ->
  float64_gt (CPUPercent b) (CPUPercent a) = false /\
  never_ascending (b :: l) = true.
Proof.
  unfold never_ascending. cbn [adjacent]. intro H.
  apply andb_true_iff in H as [H1 H2]. split; [|exact H2].
  now apply negb_true_iff in H1.
Qed.

Lemma never_ascending_keys (l : list ProcessInfo) :
  cpu_numbers l -> never_ascending l = true ->
  StronglySorted (fun a b => key_le (cpu_key b) (cpu_key a)) l.
Proof.
  induction l as [|a l IH]; intros N H; [constructor|].
  apply Forall_cons_iff in N as [Na Nl].
  destruct l as [|b l].
  - constructor; constructor.
  - apply never_ascending_cons in H as [Hab Hl].
    specialize (IH Nl Hl). constructor; [exact IH|].
    pose proof Nl as Nl'. apply Forall_cons_iff in Nl' as [Nb _].
    apply (float64_gt_key _ _ Na Nb) in Hab.
    inversion IH as [|? ? _ Fb]; subst. constructor; [exact Hab|].
    eapply Forall_impl; [|exact Fb]. cbn beta. intros c Hc.
    exact (key_le_trans _ _ _ Hc Hab).
Qed.

Lemma keys_descending (l : list ProcessInfo) :
  cpu_numbers l ->
  StronglySorted (fun a b => key_le (cpu_key b) (cpu_key a)) l ->
  descending l.
Proof.
  unfold descending, cpu_numbers. induction 2 as [|a l _ IH F]; [constructor|].
  apply Forall_cons_iff in H as [Na Nl]. constructor; [exact (IH Nl)|].
  rewrite Forall_forall in *. intros b Hb.
  apply (float64_gt_key _ _ Na (Nl b Hb)). exact (F b Hb).
Qed.

(** X8.  In every snapshot sent, as long as no process's cpuPercent is a
    NaN, the processes are in descending order throughout: no entry has
    a greater cpuPercent than any entry before it, so the first entry is
    one of the busiest. *)
Theorem sent_processes_descending (req : Request) (rs : Resources) :
  In rs (sent_snapshots (fst (wsHandler req))) ->
  cpu_numbers (elems (Processes rs)) ->
  descending (elems (Processes rs)).
Proof.
  intros H N. apply keys_descending; [exact N|].
  apply never_ascending_keys; [exact N|].
  destruct (wsHandler_sent req rs H) as [hostname [h ->]].
  apply snapshot_never_ascending.
Qed.

Lemma sent_processes_descending_witness :
  descending (elems (Processes (snapshot "h1" host_B))).
Proof.
  apply (sent_processes_descending req_C).
  - vm_compute. right. left. reflexivity.
  - vm_compute. repeat constructor.
Defined.

(** With a NaN among them the processes can be sent out of order:
    here 2% comes after 1%. *)
Example nan_breaks_the_order :
  map Name (elems (Processes (snapshot "h1" host_nan))) = ["a"; "b"; "c"]%string.
Proof. vm_compute. reflexivity. Qed.

Lemma insertionSort_nonempty {A} (less : A -> A -> bool) (x : A) (l : list A) :
  insertionSort less (x :: l) <> [].
Proof.
  intro E. pose proof (insertionSort_perm less (x :: l)) as P.
  rewrite E in P. apply Permutation_sym, Permutation_nil in P. discriminate P.
Qed.

(** X9.  The two lists of a snapshot sent are never empty non-nil
    slices: each is nil or holds at least one entry, so the wire
    message carries [null] or a non-empty array under [partitions] and
    [processes], never [[]]. *)
Theorem sent_lists_nil_or_nonempty (req : Request) (rs : Resources) :
  In rs (sent_snapshots (fst (wsHandler req))) ->
  Partitions rs <> Some [] /\
  Processes rs <> Some [] /\
  member "partitions" (json_Resources rs) <> Some (JArray []) /\
  member "processes" (json_Resources rs) <> Some (JArray []).
Proof.
  intro H. destruct (wsHandler_sent req rs H) as [hostname [h ->]].
  assert (Partitions (snapshot hostname h) <> Some []) as HP.
  { unfold snapshot. cbn [Partitions].
    destruct (kept_partitions h); cbn; discriminate. }
  assert (Processes (snapshot hostname h) <> Some []) as HQ.
  { unfold snapshot. cbn [Processes].
    destruct (kept_processes h) as [|p l]; cbn; [discriminate|].
    intro E. injection E as E. exact (insertionSort_nonempty _ _ _ E). }
  clear H. generalize dependent (snapshot hostname h).
  intros [hn up m la ps qs]. cbn. intros HP HQ.
  split; [exact HP|]. split; [exact HQ|]. split.
  - destruct ps as [[|d l]|]; cbn; try discriminate. now contradiction HP.
  - destruct qs as [[|d l]|]; cbn; try discriminate. now contradiction HQ.
Qed.

Lemma sent_lists_nil_or_nonempty_witness :
  Partitions (snapshot "h1" host_A) <> Some [] /\
  Processes (snapshot "h1" host_A) <> Some [] /\
  member "partitions" (json_Resources (snapshot "h1" host_A)) <> Some (JArray []) /\
  member "processes" (json_Resources (snapshot "h1" host_A)) <> Some (JArray []).
Proof.
  apply (sent_lists_nil_or_nonempty req_open). vm_compute. left. reflexivity.
Defined.

(** ** Further properties of [serve] *)

(** X10.  When [srv.ListenAndServe] fails with anything but
    http.ErrServerClosed -- the port is taken, say -- [serve] does not
    return that error.  It waits for a signal, for ever if none comes,
    and then returns what [srv.Shutdown] returned, nil included. *)
Theorem serve_drops_the_listen_error (app : application) (w : World) :
  wg app = 0 ->
  errors_Is (ListenAndServe_at w) http_ErrServerClosed = false ->
  snd (serve app w) =
  match quit_at w with
  | None => Serve_blocked
  | Some _ => Serve_returns (snd (srv_Shutdown (20 * time_Second) (idle_at w)))
  end.
Proof.
  intros HW HE. unfold serve, shutdown_goroutine. rewrite HE.
  destruct (quit_at w) as [s|]; [|reflexivity].
  assert ((wg_counter app (handlers_trace w) =? 0) = true) as ->.
  { unfold wg_counter. rewrite wg_unmoved by apply handlers_wg.
    rewrite HW. reflexivity. }
  destruct (srv_Shutdown (20 * time_Second) (idle_at w)) as [elapsed [e|]];
    reflexivity.
Qed.

Lemma serve_drops_the_listen_error_witness :
  snd (serve app0 world_bind_failure) =
  Serve_returns (snd (srv_Shutdown (20 * time_Second) (idle_at world_bind_failure))).
Proof.
  apply (serve_drops_the_listen_error app0 world_bind_failure); reflexivity.
Defined.

(** ** Properties of the browser client *)












(** What the page shows for a few uptimes. *)
Example formatUptime_samples :
  formatUptime 0 = js "0s" /\
  formatUptime 3600 = js "1h" /\
  formatUptime 90061 = js "1d 1h 1m 1s" /\
  formatUptime 86460 = js "1d 1m".
Proof. repeat split; vm_compute; reflexivity. Qed.

(** X12.  [truncateCommand] leaves a command of at most [maxLength] code
    units as it is and cuts a longer one to its first [maxLength] units
    followed by three dots; the result is never longer than
    [maxLength + 3], keeps the first [maxLength] units of the command,
    and truncating it again changes nothing. *)
Theorem truncateCommand_bounded (cmd : js_string) (maxLength : Z) :
  0 <= maxLength ->
  (Z.of_nat (List.length cmd) <= maxLength -> truncateCommand cmd maxLength = cmd) /\
  (maxLength < Z.of_nat (List.length cmd) ->
   truncateCommand cmd maxLength = firstn (Z.to_nat maxLength) cmd ++ js "...") /\
  Z.of_nat (List.length (truncateCommand cmd maxLength)) <= maxLength + 3 /\
  firstn (Z.to_nat maxLength) (truncateCommand cmd maxLength) =
    firstn (Z.to_nat maxLength) cmd /\
  truncateCommand (truncateCommand cmd maxLength) maxLength =
    truncateCommand cmd maxLength.
Proof.
  intro Hm. unfold truncateCommand, substring_from_0.
  rewrite (Z.max_r 0 maxLength Hm).
  destruct (Z.leb_spec (Z.of_nat (List.length cmd)) maxLength) as [Hl|Hl].
  - repeat split.
    + lia.
    + lia.
    + destruct (Z.leb_spec (Z.of_nat (List.length cmd)) maxLength); [reflexivity | lia].
  - assert (List.length (firstn (Z.to_nat maxLength) cmd) = Z.to_nat maxLength) as L
      by (rewrite length_firstn; lia).
    repeat split.
    + lia.
    + rewrite length_app, L. cbn. lia.
    + rewrite firstn_app, L, Nat.sub_diag. cbn [firstn].
      rewrite app_nil_r. rewrite <- L at 1. now rewrite firstn_all.
    + rewrite length_app, L.
      destruct (Z.leb_spec (Z.of_nat (Z.to_nat maxLength + List.length (js "...")))
                  maxLength) as [H|H]; [cbn in H; lia|].
      rewrite firstn_app, L, Nat.sub_diag. cbn [firstn].
      rewrite app_nil_r. rewrite <- L at 1. now rewrite firstn_all.
Qed.

Lemma truncateCommand_bounded_witness :
  Z.of_nat (List.length (truncateCommand (js "/usr/bin/python3 -m http.server") 10))
    <= 10 + 3 /\
  truncateCommand (js "/usr/bin/python3 -m http.server") 10 = js "/usr/bin/p...".
Proof.
  pose proof (truncateCommand_bounded (js "/usr/bin/python3 -m http.server") 10
                ltac:(lia)) as (_ & _ & H & _).
  split; [exact H | reflexivity].
Defined.




(** ** [main] *)

(** X14.  The exit status of the process: 1 (through [log.Fatal])
    whenever [srv.ListenAndServe] returned http.ErrServerClosed, that
    is after every stop that follows a successful start; when the
    listener failed instead, no exit until a signal comes, then 1 if
    [srv.Shutdown] ran into its deadline and 0 otherwise. *)
Theorem main_exit_status (w : World) :
  main w =
  if errors_Is (ListenAndServe_at w) http_ErrServerClosed then Some 1
  else
    match quit_at w with
    | None => None
    | Some _ =>
        match snd (srv_Shutdown (20 * time_Second) (idle_at w)) with
        | Some _ => Some 1
        | None => Some 0
        end
    end.
Proof.
  unfold main, serve, shutdown_goroutine.
  destruct (errors_Is (ListenAndServe_at w) http_ErrServerClosed); [reflexivity|].
  destruct (quit_at w) as [s|]; [|reflexivity].
  assert ((wg_counter {| port := 8080; wg := 0 |} (handlers_trace w) =? 0) = true)
    as ->.
  { unfold wg_counter. now rewrite wg_unmoved by apply handlers_wg. }
  destruct (srv_Shutdown (20 * time_Second) (idle_at w)) as [elapsed [e|]];
    reflexivity.
Qed.
